(** * mpqp tools: random circuits, reference matrices, custom-unitary
      decomposition and numeric display

    A shallow embedding of [mpqp/tools/display.py] and
    [mpqp/tools/circuit.py].

    Conventions.
    - Python exceptions are values of [exn]; a call that may raise returns
      a [result].
    - A numpy float is a rational, an infinity or NaN, and every operation
      gives the float of its format (single precision for [np.float32] and
      [np.complex64], double precision for [np.float64], [np.complex128] and
      Python's [float]) that is nearest to the exact result, ties to even.
      [np.round] is computed as numpy computes it, by a multiplication, a
      rounding to an integer and a division in the format of its argument.
    - What numpy, sympy and qiskit provide beyond that (text of a float or of
      a complex scalar, the random generator, [N], [transpile], ...) is a
      [Variable] of the section that uses it. *)

From Stdlib Require Import List ZArith QArith Qround Qabs Qreduction Qpower.
From Stdlib Require Import String Ascii Lia Bool Arith DecimalString.
Import ListNotations.

Close Scope Q_scope.
Set Implicit Arguments.

(** ** Exceptions *)

(** The exceptions of Python and of qiskit that the code meets;
    [CircuitError] is a subclass of [QiskitError]. *)
Inductive exn : Type :=
| ValueError
| NameError (name : string)
| TypeError
| IndexError
| OverflowError
| QiskitError (message : string)
| CircuitError (message : string)
| OtherError (cls message : string).

Inductive result (A : Type) : Type :=
| Ok (value : A)
| Raise (e : exn).

Arguments Ok {A} value.
Arguments Raise {A} e.

(** ** Python strings *)

Module Py.

#[local] Open Scope string_scope.

(** [str(n)] for a Python [int]. *)
Definition str_int (n : Z) : string := NilZero.string_of_int (Z.to_int n).

(** [s.startswith(p)]. *)
Fixpoint startswith (s p : string) {struct p} : bool :=
  match p with
  | EmptyString => true
  | String a p' =>
      match s with
      | EmptyString => false
      | String b s' => Ascii.eqb a b && startswith s' p'
      end
  end.

(** [sep.join(l)]. *)
Definition join (sep : string) (l : list string) : string := String.concat sep l.

(** [s[n:]]. *)
Fixpoint slice_from (n : nat) (s : string) : string :=
  match n, s with
  | O, _ => s
  | S _, EmptyString => EmptyString
  | S k, String _ rest => slice_from k rest
  end.

(** [c * n] for a one-character string. *)
Fixpoint replicate (n : nat) (c : ascii) : string :=
  match n with
  | O => EmptyString
  | S k => String c (replicate k c)
  end.

(** [p in s]. *)
Definition contains (p s : string) : bool :=
  match String.index 0 p s with
  | Some _ => true
  | None => false
  end.

(** [enumerate(l)]. *)
Definition enumerate {A : Type} (l : list A) : list (nat * A) :=
  combine (seq 0 (List.length l)) l.

End Py.

(** ** mpqp/tools/display.py *)

Module Display.

Import Py.
#[local] Open Scope string_scope.

(** *** numpy floats *)

(** A float: a rational, an infinity or NaN.  The sign of a zero is not
    kept; the functions of this file compare a zero with [0] or turn it into
    the [int] [0] before they print it, so that no output depends on it. *)
Inductive np_float : Type :=
| Finite (x : Q)
| Inf (negative : bool)
| NaN.

(** A binary format: [prec] significant bits, finite values below
    [2 ^ emax]. *)
Record format : Type := Format { prec : Z; emax : Z }.

(** [np.float32], and [np.float64], which is also Python's [float]. *)
Definition binary32 : format := Format 24 128.
Definition binary64 : format := Format 53 1024.

(** The complex types: [np.complex64] has two [np.float32] parts,
    [np.complex128] two [np.float64] parts; a Python [complex] is taken by
    numpy as a [np.complex128]. *)
Inductive dtype : Type :=
| complex64
| complex128.

Definition precision (d : dtype) : format :=
  match d with
  | complex64 => binary32
  | complex128 => binary64
  end.

(** A complex number, with numpy's field names. *)
Record complex : Type := Complex { real : np_float; imag : np_float }.

(** The complex number [re + im j] of two finite parts. *)
Definition Cx (re im : Q) : complex := Complex (Finite re) (Finite im).

(** What the formatting functions pass around: [_remove_null_imag] returns a
    Python [int], a [np.float32] or the complex value itself. *)
Inductive scalar : Type :=
| PyInt (n : Z)
| Float32 (x : np_float)
| NpComplex (d : dtype) (z : complex).

(** *** Rounding to a format *)

(** [np.rint]: round to the nearest integer, ties to even. *)
Definition rint (x : Q) : Z :=
  let f := Qfloor x in
  match (x - inject_Z f ?= 1 # 2)%Q with
  | Lt => f
  | Gt => (f + 1)%Z
  | Eq => if Z.even f then f else (f + 1)%Z
  end.

Definition pow2 (e : Z) : Q := Qpower 2 e.

(** The exponent of a positive rational: [2 ^ k <= x < 2 ^ (k + 1)]. *)
Definition log2_floor (x : Q) : Z :=
  let k := (Z.log2 (Qnum x) - Z.log2 (Zpos (Qden x)))%Z in
  if Qle_bool (pow2 k) x then k else (k - 1)%Z.

(** The float of the format nearest to [x], ties to even: [x] is cut at
    [prec] significant bits, or at the bit of weight [2 ^ (3 - emax - prec)]
    in the subnormal range, and overflows to an infinity. *)
Definition round_to (fmt : format) (x : Q) : np_float :=
  let x := Qred x in
  if Qeq_bool x 0 then Finite 0
  else
    let e := Z.max (log2_floor (Qabs x) - (prec fmt - 1))
                   (3 - emax fmt - prec fmt) in
    let y := (inject_Z (rint (x / pow2 e)) * pow2 e)%Q in
    if Qle_bool (pow2 (emax fmt)) (Qabs y) then Inf (negb (Qle_bool 0 x))
    else Finite (Qred y).

(** Conversion of a float to a format. *)
Definition cast (fmt : format) (x : np_float) : np_float :=
  match x with
  | Finite q => round_to fmt q
  | _ => x
  end.

(** [np.float32(x)]. *)
Definition float32 (x : np_float) : np_float := cast binary32 x.

(** [np.array(z, dtype=d)] on one element. *)
Definition astype (d : dtype) (z : complex) : complex :=
  Complex (cast (precision d) (real z)) (cast (precision d) (imag z)).

(** A Python float literal. *)
Definition literal (x : Q) : np_float := round_to binary64 x.

Definition is_negative (x : Q) : bool := negb (Qle_bool 0 x).

(** [a * b] and [a / b] in a format: the exact result, rounded. *)
Definition fmul (fmt : format) (a b : np_float) : np_float :=
  match a, b with
  | NaN, _ | _, NaN => NaN
  | Finite x, Finite y => round_to fmt (x * y)
  | Inf s, Inf t => Inf (xorb s t)
  | Inf s, Finite y | Finite y, Inf s =>
      if Qeq_bool y 0 then NaN else Inf (xorb s (is_negative y))
  end.

Definition fdiv (fmt : format) (a b : np_float) : np_float :=
  match a, b with
  | NaN, _ | _, NaN => NaN
  | Inf _, Inf _ => NaN
  | Inf s, Finite y => Inf (xorb s (is_negative y))
  | Finite _, Inf _ => Finite 0
  | Finite x, Finite y =>
      if Qeq_bool y 0 then
        if Qeq_bool x 0 then NaN else Inf (is_negative x)
      else round_to fmt (x / y)
  end.

Definition np_rint (x : np_float) : np_float :=
  match x with
  | Finite q => Finite (inject_Z (rint q))
  | _ => x
  end.

(** The Python float [10 ** n] that [np.round] builds. *)
Definition power_of_ten (n : Z) : np_float :=
  round_to binary64 (inject_Z (10 ^ n)).

(** [np.round(x, decimals)] on a float of format [fmt], as numpy computes
    it: [rint(x)] for no decimal; otherwise [x] is multiplied by
    [10 ** decimals], rounded to an integer and divided by [10 ** decimals]
    (divided, then multiplied, for negative [decimals]); [10 ** decimals] is
    a Python float taken to the format of [x], and every step gives a float
    of that format. *)
Definition np_round (fmt : format) (x : np_float) (decimals : Z) : np_float :=
  if (decimals =? 0)%Z then np_rint x
  else
    let f := cast fmt (power_of_ten (Z.abs decimals)) in
    if (0 <? decimals)%Z then fdiv fmt (np_rint (fmul fmt x f)) f
    else fmul fmt (np_rint (fdiv fmt x f)) f.

(** [np.round] on a complex value rounds each part. *)
Definition round_complex (d : dtype) (z : complex) (decimals : Z) : complex :=
  Complex (np_round (precision d) (real z) decimals)
          (np_round (precision d) (imag z) decimals).

(** *** Tests and conversions *)

(** [x.is_integer()] on a finite value. *)
Definition is_integer (x : Q) : bool := (Qnum x mod Zpos (Qden x) =? 0)%Z.

(** Truncation towards zero. *)
Definition int_of (x : Q) : Z := Z.quot (Qnum x) (Zpos (Qden x)).

(** [int(x)]: fails on an infinity and on NaN. *)
Definition py_int (x : np_float) : result Z :=
  match x with
  | Finite q => Ok (int_of q)
  | Inf _ => Raise OverflowError
  | NaN => Raise ValueError
  end.

(** A float that [int] converts, and the exception that [int] raises on
    another one. *)
Definition is_finite (x : np_float) : bool :=
  match x with
  | Finite _ => true
  | _ => false
  end.

Definition conversion_error (x : np_float) : exn :=
  match x with
  | NaN => ValueError
  | _ => OverflowError
  end.

(** [x == 0], [x == 1], [x >= 0] and [x == n]; every comparison with NaN
    is false. *)
Definition is_zero (x : np_float) : bool :=
  match x with
  | Finite q => Qeq_bool q 0
  | _ => false
  end.

Definition is_one (x : np_float) : bool :=
  match x with
  | Finite q => Qeq_bool q 1
  | _ => false
  end.

Definition is_nonnegative (x : np_float) : bool :=
  match x with
  | Finite q => Qle_bool 0 q
  | Inf negative => negb negative
  | NaN => false
  end.

Definition equals_int (x : np_float) (n : Z) : bool :=
  match x with
  | Finite q => Qeq_bool q (inject_Z n)
  | _ => false
  end.

(** [abs(x)] and [-x]. *)
Definition fabs (x : np_float) : np_float :=
  match x with
  | Finite q => Finite (Qabs q)
  | Inf _ => Inf false
  | NaN => NaN
  end.

Definition fneg (x : np_float) : np_float :=
  match x with
  | Finite q => Finite (- q)
  | Inf negative => Inf (negb negative)
  | NaN => NaN
  end.

(** [z != 0] for a complex value. *)
Definition complex_nonzero (z : complex) : bool :=
  negb (is_zero (real z)) || negb (is_zero (imag z)).

(** *** A decimal formatter, used to run the model on concrete inputs *)

Definition digit (d : Z) : ascii := ascii_of_nat (48 + Z.to_nat d).

Fixpoint frac_digits (fuel : nat) (num den : Z) : string :=
  match fuel with
  | O => EmptyString
  | S k =>
      if (num =? 0)%Z then EmptyString
      else String (digit (10 * num / den)) (frac_digits k ((10 * num) mod den) den)
  end.

(** The digits after the point of a non-negative decimal number. *)
Definition fraction (x : Q) : string :=
  let x := Qred x in
  frac_digits 400 (Qnum x mod Zpos (Qden x)) (Zpos (Qden x)).

Definition pow10 (e : Z) : Q := Qpower 10 e.

Fixpoint log10_below (fuel : nat) (x : Q) (k : Z) : Z :=
  match fuel with
  | O => (- k)%Z
  | S n =>
      if Qle_bool 1 (x * pow10 k) then (- k)%Z else log10_below n x (k + 1)
  end.

(** The decimal exponent of a positive rational. *)
Definition log10_floor (x : Q) : Z :=
  if Qle_bool 1 x then (Z.of_nat (String.length (str_int (Qfloor x))) - 1)%Z
  else log10_below 400 x 1.

(** [x] at [p] significant decimal digits. *)
Definition to_precision (x : Q) (p : Z) : Q :=
  let e := (log10_floor x - (p - 1))%Z in
  Qred (inject_Z (rint (x / pow10 e)) * pow10 e).

(** The decimal number with the fewest digits that the format reads back
    as [x]. *)
Fixpoint shortest (fmt : format) (fuel : nat) (p : Z) (x : Q) : Q :=
  match fuel with
  | O => x
  | S n =>
      let y := to_precision x p in
      match round_to fmt y with
      | Finite z => if Qeq_bool z x then y else shortest fmt n (p + 1) x
      | _ => shortest fmt n (p + 1) x
      end
  end.

Definition positive_repr (fmt : format) (x : Q) : string :=
  let y := shortest fmt 17 1 x in
  if Qle_bool (pow10 (-4)) y && negb (Qle_bool (pow10 16) y) then
    str_int (Qfloor y) ++ "."
      ++ (match fraction y with EmptyString => "0" | f => f end)
  else
    let e := log10_floor y in
    let m := (y / pow10 e)%Q in
    str_int (Qfloor m)
      ++ (match fraction m with EmptyString => "" | f => "." ++ f end)
      ++ "e" ++ (if (e <? 0)%Z then "-" else "+")
      ++ (if (Z.abs e <? 10)%Z then "0" else "") ++ str_int (Z.abs e).

(** Text of a float in numpy's style, with the fewest digits that identify
    it in its format: ["0.5"], ["2.0"], ["1e-07"], ["inf"]. *)
Definition float_repr (fmt : format) (x : np_float) : string :=
  match x with
  | NaN => "nan"
  | Inf negative => if negative then "-inf" else "inf"
  | Finite q =>
      if Qeq_bool q 0 then "0.0"
      else (if Qle_bool 0 q then "" else "-") ++ positive_repr fmt (Qabs q)
  end.

Definition part_repr (fmt : format) (x : np_float) : string :=
  match x with
  | Finite q =>
      if is_integer q && negb (Qle_bool (pow10 16) (Qabs q))
      then str_int (int_of q) else float_repr fmt x
  | _ => float_repr fmt x
  end.

(** Text of a complex value in Python's style: ["3j"], ["(1+2j)"]. *)
Definition complex_repr (d : dtype) (z : complex) : string :=
  let im := part_repr (precision d) (imag z) ++ "j" in
  if is_zero (real z) then im
  else "(" ++ part_repr (precision d) (real z)
           ++ (if startswith im "-" then "" else "+") ++ im ++ ")".

(** Exact modulus on the axes; off the axes a square root would be needed,
    which no call below reaches with this instance. *)
Definition axis_hypot (d : dtype) (re im : np_float) : np_float :=
  if is_zero re then fabs im else fabs re.

Section Formatting.

(** numpy's text of a [np.float32], numpy's text of a complex scalar, and
    the modulus of a complex number with two non-zero parts. *)
Variable str_float : np_float -> string.
Variable str_complex : dtype -> complex -> string.
Variable hypot : dtype -> np_float -> np_float -> np_float.

(** [str(v)]. *)
Definition str (v : scalar) : string :=
  match v with
  | PyInt n => str_int n
  | Float32 x => str_float x
  | NpComplex d z => str_complex d z
  end.

(** [v.real], [v.imag], [-v], [abs(v)], [v == 1]. *)
Definition scalar_real (v : scalar) : np_float :=
  match v with
  | PyInt n => Finite (inject_Z n)
  | Float32 x => x
  | NpComplex _ z => real z
  end.

Definition scalar_imag (v : scalar) : np_float :=
  match v with
  | PyInt _ => Finite 0
  | Float32 _ => Finite 0
  | NpComplex _ z => imag z
  end.

Definition scalar_neg (v : scalar) : scalar :=
  match v with
  | PyInt n => PyInt (- n)
  | Float32 x => Float32 (fneg x)
  | NpComplex d z => NpComplex d (Complex (fneg (real z)) (fneg (imag z)))
  end.

Definition scalar_abs (v : scalar) : np_float :=
  match v with
  | PyInt n => Finite (inject_Z (Z.abs n))
  | Float32 x => fabs x
  | NpComplex d z =>
      if is_zero (real z) then fabs (imag z)
      else if is_zero (imag z) then fabs (real z)
      else hypot d (real z) (imag z)
  end.

Definition scalar_is_one (v : scalar) : bool :=
  match v with
  | PyInt n => (n =? 1)%Z
  | Float32 x => is_one x
  | NpComplex _ z => is_one (real z) && is_zero (imag z)
  end.

(** display.py, lines 58-62: the value is taken to single precision, and
    an integer value is returned as an [int]. *)
Definition _remove_unnecessary_decimals (val : np_float) : scalar :=
  match float32 val with
  | Finite x => if is_integer x then PyInt (int_of x) else Float32 (Finite x)
  | val => Float32 val
  end.

(** display.py, lines 51-55; [d] is the type of [val]. *)
Definition _remove_null_imag (d : dtype) (val : complex) : scalar :=
  let val := round_complex d val 3 in
  if negb (is_zero (imag val)) then NpComplex d val
  else _remove_unnecessary_decimals (real val).

(** display.py, lines 27-48. *)
Definition with_sign (d : dtype) (val : complex) : string :=
  let rounded := _remove_null_imag d val in
  if scalar_is_one rounded then "+ "
  else if is_zero (scalar_real rounded) then
    let sign := if is_nonnegative (scalar_imag rounded) then "+ " else "- " in
    let rounded := _remove_unnecessary_decimals (scalar_abs rounded) in
    sign ++ str rounded ++ "j"
  else
    let str_rounded := str rounded in
    if startswith str_rounded "-" || startswith str_rounded "(-" then
      "- " ++ str (scalar_neg rounded)
    else "+ " ++ str_rounded.

(** *** state_vector_ket_shape *)

(** A numpy array: the type of its elements, its shape and its elements in
    row-major order. *)
Record ndarray : Type := NDArray {
  element_type : dtype;
  shape : list nat;
  data : list complex
}.

(** A one-dimensional array. *)
Definition vector (d : dtype) (l : list complex) : ndarray :=
  NDArray d [List.length l] l.

Fixpoint bin_pos (p : positive) : string :=
  match p with
  | xH => "1"
  | xO q => bin_pos q ++ "0"
  | xI q => bin_pos q ++ "1"
  end.

(** [np.binary_repr(num, width)] for [num >= 0]: ['0' * (width or 1)] for
    zero, otherwise the binary digits filled with zeros on the left. *)
Definition binary_repr (num width : nat) : string :=
  match N.of_nat num with
  | N0 => replicate (if (width =? 0)%nat then 1 else width) "0"
  | Npos p =>
      let binary := bin_pos p in
      replicate (width - String.length binary) "0" ++ binary
  end.

(** [int(np.log2(n))]: [np.log2(0)] is [-inf], whose conversion to [int]
    raises [OverflowError]. *)
Definition int_log2 (n : nat) : result nat :=
  match n with
  | O => Raise OverflowError
  | _ => Ok (Nat.log2 n)
  end.

(** The closing bracket of a ket, U+27E9, as its three UTF-8 bytes. *)
Definition rangle : string :=
  String (ascii_of_nat 226) (String (ascii_of_nat 159) (String (ascii_of_nat 169) EmptyString)).

(** One term of the sum, line 20. *)
Definition ket_term (d : dtype) (nb_qubits : nat) (iv : nat * complex) : string :=
  with_sign d (snd iv) ++ "|" ++ binary_repr (fst iv) nb_qubits ++ rangle.

(** The filter of line 22: [v.round(3) != 0]. *)
Definition kept (d : dtype) (iv : nat * complex) : bool :=
  complex_nonzero (round_complex d (snd iv) 3).

(** display.py, lines 11-24. *)
Definition state_vector_ket_shape (sv : ndarray) : result string :=
  if negb (List.length (shape sv) =? 1)%nat then Raise ValueError
  else
    let len := hd O (shape sv) in
    match int_log2 len with
    | Raise e => Raise e
    | Ok nb_qubits =>
        if negb (2 ^ nb_qubits =? len)%nat then Raise ValueError
        else
          Ok (slice_from 2
                (join " " (map (ket_term (element_type sv) nb_qubits)
                               (filter (kept (element_type sv))
                                       (enumerate (data sv))))))
    end.

(** *** clean_1D_array *)

(** [real_part] and [imag_part] hold a [np.float32], then perhaps an
    [int], then perhaps a string. *)
Inductive part : Type :=
| PartInt (n : Z)
| PartFloat (x : np_float)
| PartStr (s : string).

Definition str_part (p : part) : string :=
  match p with
  | PartInt n => str_int n
  | PartFloat x => str_float x
  | PartStr s => s
  end.

(** [p == 0]; a string never equals a number. *)
Definition part_is_zero (p : part) : bool :=
  match p with
  | PartInt n => (n =? 0)%Z
  | PartFloat x => is_zero x
  | PartStr _ => false
  end.

(** [p != ""]. *)
Definition part_not_empty (p : part) : bool :=
  match p with
  | PartStr EmptyString => false
  | _ => true
  end.

(** Lines 101-104: [if x == int(x): x = int(x)]; [int(x)] is evaluated
    first, and fails when [x] is infinite or NaN. *)
Definition as_int_if_whole (x : np_float) : result part :=
  match py_int x with
  | Raise e => Raise e
  | Ok n => Ok (if equals_int x n then PartInt n else PartFloat x)
  end.

(** Lines 106-116: the text of an element from its two parts. *)
Definition element_text (real_part imag_part : part) : string :=
  let real_part :=
    if part_is_zero real_part && negb (part_is_zero imag_part)
    then PartStr "" else real_part in
  let imag_part :=
    if part_is_zero imag_part then PartStr ""
    else
      let imag_part := str_part imag_part ++ "j" in
      if part_not_empty real_part && negb (startswith imag_part "-")
      then PartStr ("+" ++ imag_part) else PartStr imag_part in
  str_part real_part ++ str_part imag_part.

(** The body of the loop, lines 98-116, on an element of the [complex64]
    array. *)
Definition clean_element (round : Z) (element : complex) : result string :=
  let real_part := np_round binary32 (real element) round in
  let imag_part := np_round binary32 (imag element) round in
  match as_int_if_whole real_part with
  | Raise e => Raise e
  | Ok real_part =>
      match as_int_if_whole imag_part with
      | Raise e => Raise e
      | Ok imag_part => Ok (element_text real_part imag_part)
      end
  end.

(** A loop that builds a list and stops at the first exception. *)
Fixpoint for_each {A B : Type} (body : A -> result B) (l : list A)
  : result (list B) :=
  match l with
  | [] => Ok []
  | a :: rest =>
      match body a with
      | Raise e => Raise e
      | Ok b =>
          match for_each body rest with
          | Raise e => Raise e
          | Ok bs => Ok (b :: bs)
          end
      end
  end.

(** display.py, lines 65-118; [round] defaults to 7. *)
Definition clean_1D_array (array : list complex) (round : option Z)
  : result string :=
  let round := match round with Some r => r | None => 7%Z end in
  let array := map (astype complex64) array in
  match for_each (clean_element round) array with
  | Raise e => Raise e
  | Ok cleaned_array => Ok ("[" ++ join ", " cleaned_array ++ "]")
  end.

(** display.py, lines 121-144. *)
Definition clean_matrix (matrix : list (list complex)) : result string :=
  match for_each (fun row => clean_1D_array row None) matrix with
  | Raise e => Raise e
  | Ok cleaned_matrix =>
      Ok ("[" ++ join (String "," (String (ascii_of_nat 10) " ")) cleaned_matrix
              ++ "]")
  end.


(** *** Facts on the arithmetic *)

Lemma Qred_inject_Z (n : Z) : Qred (inject_Z n) = inject_Z n.
Proof.
  unfold Qred, inject_Z.
  pose proof (Z.ggcd_gcd n 1) as Hg.
  pose proof (Z.ggcd_correct_divisors n 1) as Hd.
  destruct (Z.ggcd n 1) as [g [aa bb]]; simpl in Hg.
  rewrite Z.gcd_1_r in Hg. subst g. destruct Hd as [Ha Hb]. simpl.
  replace aa with n by lia. replace bb with 1%Z by lia. reflexivity.
Qed.

Lemma rint_inject_Z (a : Z) : rint (inject_Z a) = a.
Proof.
  unfold rint.
  assert (Hf : Qfloor (inject_Z a) = a)
    by (unfold Qfloor, inject_Z; apply Z.div_1_r).
  rewrite Hf.
  assert (Hc : (inject_Z a - inject_Z a ?= 1 # 2)%Q = Lt).
  { unfold Qcompare; simpl. apply Z.compare_lt_iff. lia. }
  rewrite Hc. reflexivity.
Qed.

Lemma rint_comp (x y : Q) : (x == y)%Q -> rint x = rint y.
Proof.
  intro H. unfold rint. rewrite (Qfloor_comp _ _ H).
  assert (E : (x - inject_Z (Qfloor y) ?= 1 # 2)%Q
              = (y - inject_Z (Qfloor y) ?= 1 # 2)%Q).
  { apply Qcompare_comp; [now rewrite H | reflexivity]. }
  now rewrite E.
Qed.

(** Rounding depends on the value only, not on how the rational is
    written. *)
Lemma round_to_comp (fmt : format) (x y : Q) :
  (x == y)%Q -> round_to fmt x = round_to fmt y.
Proof. intro H. unfold round_to. now rewrite (Qred_complete _ _ H). Qed.

Lemma pow2_inject (e : Z) : (0 <= e)%Z -> (pow2 e == inject_Z (2 ^ e))%Q.
Proof. intro H. unfold pow2. symmetry. exact (Zpower_Qpower 2 e H). Qed.

Lemma pow2_positive (e : Z) : (0 < pow2 e)%Q.
Proof. unfold pow2. apply Qpower_0_lt. reflexivity. Qed.

Lemma pow2_add (a b : Z) : (pow2 (a + b) == pow2 a * pow2 b)%Q.
Proof. unfold pow2. apply Qpower_plus. discriminate. Qed.

Lemma Qeq_bool_inject_Z (a b : Z) : Qeq_bool (inject_Z a) (inject_Z b) = (a =? b)%Z.
Proof.
  destruct (Z.eqb_spec a b) as [-> | Hne]; [apply Qeq_bool_refl|].
  destruct (Qeq_bool _ _) eqn:E; [|reflexivity].
  apply Qeq_bool_eq in E. unfold Qeq in E; simpl in E. lia.
Qed.

(** A float is left as it is by the conversion to its format: an integer
    [m * 2 ^ k] with [m] on [prec] bits is representable. *)
Lemma round_to_exact (fmt : format) (m k : Z) :
  (0 < prec fmt)%Z -> (3 <= emax fmt + prec fmt)%Z ->
  (Z.abs m < 2 ^ prec fmt)%Z -> (0 <= k)%Z -> (prec fmt + k <= emax fmt)%Z ->
  round_to fmt (inject_Z (m * 2 ^ k)) = Finite (inject_Z (m * 2 ^ k)).
Proof.
  intros Hp Hmin Hm Hk Hmax.
  set (z := (m * 2 ^ k)%Z).
  unfold round_to. rewrite Qred_inject_Z. cbv zeta.
  change 0%Q with (inject_Z 0). rewrite Qeq_bool_inject_Z.
  destruct (Z.eqb_spec z 0) as [Hz | Hz]; [now rewrite Hz|].
  assert (H2k : (0 < 2 ^ k)%Z) by (apply Z.pow_pos_nonneg; lia).
  assert (Hzlt : (Z.abs z < 2 ^ (prec fmt + k))%Z).
  { unfold z. rewrite Z.abs_mul, (Z.abs_eq (2 ^ k)) by lia.
    rewrite Z.pow_add_r by lia. apply Z.mul_lt_mono_pos_r; assumption. }
  assert (Hzpos : (0 < Z.abs z)%Z) by lia.
  change (Qabs (inject_Z z)) with (inject_Z (Z.abs z)).
  assert (Hlog : log2_floor (inject_Z (Z.abs z)) = Z.log2 (Z.abs z)).
  { unfold log2_floor. cbn [Qnum Qden inject_Z].
    change (Z.log2 1) with 0%Z. rewrite Z.sub_0_r.
    assert (Hle : Qle_bool (pow2 (Z.log2 (Z.abs z))) (inject_Z (Z.abs z)) = true).
    { apply Qle_bool_iff. rewrite pow2_inject by apply Z.log2_nonneg.
      rewrite <- Zle_Qle. apply Z.log2_spec. exact Hzpos. }
    now rewrite Hle. }
  rewrite Hlog.
  set (e := Z.max (Z.log2 (Z.abs z) - (prec fmt - 1)) (3 - emax fmt - prec fmt)).
  assert (He : (e <= k)%Z).
  { assert (Z.log2 (Z.abs z) < prec fmt + k)%Z
      by (apply Z.log2_lt_pow2; assumption).
    unfold e. lia. }
  assert (Hsplit : (pow2 k == pow2 (k - e) * pow2 e)%Q).
  { rewrite <- pow2_add. replace (k - e + e)%Z with k by lia. reflexivity. }
  assert (Hne : ~ (pow2 e == 0)%Q).
  { intro H0. pose proof (pow2_positive e) as Hpos. rewrite H0 in Hpos.
    exact (Qlt_irrefl 0 Hpos). }
  assert (Hz2 : (inject_Z z == inject_Z (m * 2 ^ (k - e)) * pow2 e)%Q).
  { unfold z. rewrite !inject_Z_mult.
    rewrite <- (pow2_inject (e := k)) by lia.
    rewrite <- (pow2_inject (e := k - e)) by lia.
    rewrite Hsplit. ring. }
  assert (Hdiv : (inject_Z z / pow2 e == inject_Z (m * 2 ^ (k - e)))%Q).
  { rewrite Hz2. field. exact Hne. }
  rewrite (rint_comp Hdiv), rint_inject_Z.
  assert (Hy : Qred (inject_Z (m * 2 ^ (k - e)) * pow2 e) = inject_Z z).
  { rewrite <- (Qred_inject_Z z). apply Qred_complete. now rewrite Hz2. }
  assert (Hover : Qle_bool (pow2 (emax fmt))
                    (Qabs (inject_Z (m * 2 ^ (k - e)) * pow2 e)) = false).
  { destruct (Qle_bool _ _) eqn:E; [|reflexivity]. exfalso.
    apply Qle_bool_iff in E. rewrite <- Hz2 in E.
    change (Qabs (inject_Z z)) with (inject_Z (Z.abs z)) in E.
    rewrite pow2_inject in E by lia. rewrite <- Zle_Qle in E.
    assert (2 ^ (prec fmt + k) <= 2 ^ emax fmt)%Z
      by (apply Z.pow_le_mono_r; lia).
    lia. }
  rewrite Hover, Hy. reflexivity.
Qed.

Lemma round_to_int (fmt : format) (n : Z) :
  (0 < prec fmt)%Z -> (3 <= emax fmt + prec fmt)%Z -> (prec fmt <= emax fmt)%Z ->
  (Z.abs n < 2 ^ prec fmt)%Z ->
  round_to fmt (inject_Z n) = Finite (inject_Z n).
Proof.
  intros Hp Hmin Hmax Hn.
  replace n with (n * 2 ^ 0)%Z by (simpl; lia).
  apply round_to_exact; try assumption; lia.
Qed.

Lemma np_rint_inject_Z (n : Z) : np_rint (Finite (inject_Z n)) = Finite (inject_Z n).
Proof. simpl. now rewrite rint_inject_Z. Qed.

Lemma pow5_bound (decimals : Z) :
  (0 <= decimals <= 22)%Z -> (0 < 5 ^ decimals < 2 ^ 53)%Z.
Proof.
  intro H. split; [apply Z.pow_pos_nonneg; lia|].
  assert (H1 : (5 ^ decimals <= 5 ^ 22)%Z) by (apply Z.pow_le_mono_r; lia).
  assert (H2 : (5 ^ 22 < 2 ^ 53)%Z) by reflexivity.
  lia.
Qed.

(** The powers of ten up to [10 ** 22] are Python floats. *)
Lemma power_of_ten_exact (n : Z) :
  (0 <= n <= 22)%Z -> power_of_ten n = Finite (inject_Z (10 ^ n)).
Proof.
  intros Hn. unfold power_of_ten.
  replace (10 ^ n)%Z with (5 ^ n * 2 ^ n)%Z
    by (rewrite <- Z.pow_mul_l; reflexivity).
  pose proof (pow5_bound Hn) as H5.
  apply round_to_exact; cbn [prec emax binary64]; lia.
Qed.

(** [np.round] leaves an integer [n] alone when [n * 10 ** decimals] is a
    float of the format. *)
Lemma np_round_exact (fmt : format) (n decimals : Z) :
  (0 < prec fmt)%Z -> (3 <= emax fmt + prec fmt)%Z ->
  (prec fmt + decimals <= emax fmt)%Z ->
  (0 <= decimals <= 22)%Z ->
  (5 ^ decimals < 2 ^ prec fmt)%Z ->
  (Z.abs n * 5 ^ decimals < 2 ^ prec fmt)%Z ->
  np_round fmt (Finite (inject_Z n)) decimals = Finite (inject_Z n).
Proof.
  intros Hp Hmin Hmax Hd H5 Hn.
  unfold np_round. destruct (Z.eqb_spec decimals 0) as [_ | Hd0];
    [apply np_rint_inject_Z|].
  assert (Hpos : (0 <? decimals)%Z = true) by (apply Z.ltb_lt; lia).
  rewrite Hpos, Z.abs_eq, power_of_ten_exact by lia. cbn [cast].
  pose proof (pow5_bound Hd) as [H5pos _].
  assert (H10 : (10 ^ decimals = 5 ^ decimals * 2 ^ decimals)%Z)
    by (rewrite <- Z.pow_mul_l; reflexivity).
  assert (Hf : round_to fmt (inject_Z (10 ^ decimals))
               = Finite (inject_Z (10 ^ decimals))).
  { rewrite H10. apply round_to_exact; try assumption; lia. }
  rewrite Hf. cbn [fmul].
  assert (Hmul : round_to fmt (inject_Z n * inject_Z (10 ^ decimals))
                 = Finite (inject_Z (n * 10 ^ decimals))).
  { rewrite (round_to_comp fmt (y := inject_Z (n * 5 ^ decimals * 2 ^ decimals))).
    - rewrite round_to_exact by (try assumption; lia).
      now rewrite H10, Z.mul_assoc.
    - rewrite <- inject_Z_mult, H10, Z.mul_assoc. reflexivity. }
  rewrite Hmul, np_rint_inject_Z. cbn [fdiv].
  assert (H10pos : (0 < 10 ^ decimals)%Z) by (apply Z.pow_pos_nonneg; lia).
  change 0%Q with (inject_Z 0). rewrite Qeq_bool_inject_Z.
  destruct (Z.eqb_spec (10 ^ decimals) 0) as [E | _]; [lia|].
  rewrite (round_to_comp fmt (y := inject_Z n)).
  - apply round_to_int; try assumption; try lia.
    assert (Z.abs n * 1 <= Z.abs n * 5 ^ decimals)%Z
      by (apply Z.mul_le_mono_nonneg_l; lia).
    lia.
  - rewrite inject_Z_mult. field.
    intro H0. unfold Qeq in H0; simpl in H0. lia.
Qed.

(** For the two types of this file and an integer [n]: rounding at three
    decimals, and the conversion to single precision. *)
Lemma np_round_3_int (d : dtype) (n : Z) :
  (Z.abs n <= 134217)%Z ->
  np_round (precision d) (Finite (inject_Z n)) 3 = Finite (inject_Z n).
Proof.
  intro Hn. destruct d; apply np_round_exact;
    cbn [precision prec emax binary32 binary64]; lia.
Qed.


(** Rounding at seven decimals in single precision. *)
Lemma np_round_7_int (n : Z) :
  (Z.abs n <= 214)%Z ->
  np_round binary32 (Finite (inject_Z n)) 7 = Finite (inject_Z n).
Proof. intro Hn. apply np_round_exact; cbn [prec emax binary32]; lia. Qed.


Lemma int_of_inject_Z (n : Z) : int_of (inject_Z n) = n.
Proof. unfold int_of; simpl. apply Z.quot_1_r. Qed.

Lemma is_zero_inject_Z (n : Z) : is_zero (Finite (inject_Z n)) = (n =? 0)%Z.
Proof. exact (Qeq_bool_inject_Z n 0). Qed.

Lemma int_of_exact (x : Q) : is_integer x = true -> (inject_Z (int_of x) == x)%Q.
Proof.
  unfold is_integer, int_of. destruct x as [n d]; simpl. intro H.
  apply Z.eqb_eq in H.
  assert (Hd : Z.pos d <> 0%Z) by discriminate.
  apply (Z.mod_divide _ _ Hd) in H.
  rewrite (Z.quot_div_exact _ _ Hd H).
  destruct H as [q Hq]. subst n. rewrite Z.div_mul by exact Hd.
  unfold Qeq; simpl. lia.
Qed.


(** *** Facts on the text of an integer *)




Lemma append_empty_r (s : string) : s ++ "" = s.
Proof. induction s as [|a s IH]; simpl; [reflexivity | now rewrite IH]. Qed.

(** *** with_sign *)



Lemma remove_null_imag_imaginary (d : dtype) (m : Z) :
  (Z.abs m <= 134217)%Z -> m <> 0%Z ->
  _remove_null_imag d (Cx 0 (inject_Z m))
  = NpComplex d (Complex (Finite 0) (Finite (inject_Z m))).
Proof.
  intros Hm Hm0. unfold _remove_null_imag, round_complex, Cx; cbn [real imag].
  change 0%Q with (inject_Z 0).
  rewrite (@np_round_3_int d m Hm), (@np_round_3_int d 0) by (simpl; lia).
  rewrite is_zero_inject_Z.
  destruct (Z.eqb_spec m 0); [contradiction | reflexivity].
Qed.





(** Every output opens with an explicit sign. *)
Lemma with_sign_leading_sign (d : dtype) (val : complex) :
  exists body, with_sign d val = "+ " ++ body \/ with_sign d val = "- " ++ body.
Proof.
  unfold with_sign.
  destruct (scalar_is_one _); [exists ""; left; reflexivity|].
  destruct (is_zero _).
  - destruct (is_nonnegative _); eexists; [left | right]; reflexivity.
  - destruct (_ || _); eexists; [right | left]; reflexivity.
Qed.


(** *** state_vector_ket_shape *)

(** C6, as the code has it: the slice [[2:]] of line 24 removes the sign of
    the first term, so the basis state [[1,0,0,0]] is rendered ["|00⟩"]. *)
Theorem state_vector_ket_shape_basis_00 :
  forall d,
    state_vector_ket_shape (vector d [Cx 1 0; Cx 0 0; Cx 0 0; Cx 0 0])
    = Ok "|00⟩".
Proof. intros []; vm_compute; reflexivity. Qed.

(** C7, at the empty vector: the length 0 is not a power of two, and the
    call fails in [int(np.log2(0))] with [OverflowError], before the check
    of line 16 that raises the [ValueError]. *)
Theorem state_vector_ket_shape_empty :
  forall d, state_vector_ket_shape (vector d []) = Raise OverflowError.
Proof. reflexivity. Qed.

Lemma pow2_log2_iff (n : nat) :
  (2 ^ Nat.log2 n =? n)%nat = true <-> exists k, n = (2 ^ k)%nat.
Proof.
  rewrite Nat.eqb_eq. split.
  - intro H. exists (Nat.log2 n). now symmetry.
  - intros [k ->]. rewrite Nat.log2_pow2; [reflexivity | lia].
Qed.

(** Away from the empty vector the validation is as the spec has it: a
    [ValueError] exactly for a wrong rank or a length that is no power of
    two. *)
Lemma state_vector_ket_shape_value_error (sv : ndarray) :
  state_vector_ket_shape sv = Raise ValueError <->
  (List.length (shape sv) <> 1%nat \/
   exists n, shape sv = [n] /\ n <> O /\ ~ exists k, n = (2 ^ k)%nat).
Proof.
  unfold state_vector_ket_shape.
  destruct sv as [dt [|n [|m sh]] d]; simpl shape; simpl List.length.
  - simpl. split; [intros _; left; lia | reflexivity].
  - change (negb (1 =? 1)%nat) with false. cbv iota. simpl hd.
    destruct n as [|n'].
    + simpl. split; [discriminate|].
      intros [H | (n & Hn & Hz & _)]; [lia | ].
      inversion Hn; subst; contradiction.
    + unfold int_log2.
      destruct (2 ^ Nat.log2 (S n') =? S n')%nat eqn:E; simpl negb; cbv iota.
      * split; [discriminate|].
        intros [H | (n & Hn & _ & Hk)]; [lia|].
        inversion Hn; subst. exfalso. apply Hk.
        apply pow2_log2_iff. exact E.
      * split; [|reflexivity]. intros _. right. exists (S n').
        repeat split; [lia|]. intro Hk. apply pow2_log2_iff in Hk. congruence.
  - simpl. split; [intros _; left; lia | reflexivity].
Qed.

(** It returns exactly on the vectors whose length is a power of two, and
    the result is the sum of the terms of the components that do not round
    to zero. *)
Lemma state_vector_ket_shape_returns (sv : ndarray) (s : string) :
  state_vector_ket_shape sv = Ok s <->
  exists k, shape sv = [(2 ^ k)%nat] /\
    s = slice_from 2
          (join " " (map (ket_term (element_type sv) k)
                         (filter (kept (element_type sv)) (enumerate (data sv))))).
Proof.
  unfold state_vector_ket_shape.
  destruct sv as [dt [|n [|m sh]] d]; simpl shape; simpl List.length.
  - simpl. split; [discriminate | intros (k & H & _); discriminate].
  - change (negb (1 =? 1)%nat) with false. cbv iota. simpl hd.
    destruct n as [|n'].
    + simpl. split; [discriminate|]. intros (k & H & _).
      inversion H. pose proof (Nat.pow_nonzero 2 k). lia.
    + unfold int_log2.
      destruct (2 ^ Nat.log2 (S n') =? S n')%nat eqn:E; simpl negb; cbv iota.
      * apply Nat.eqb_eq in E. split.
        -- intro H. inversion H. exists (Nat.log2 (S n')). rewrite E. now split.
        -- intros (k & H & ->). inversion H as [Hk].
           rewrite Hk, Nat.log2_pow2 by lia. reflexivity.
      * split; [discriminate|]. intros (k & H & _). inversion H as [Hk].
        rewrite Hk, Nat.log2_pow2, Nat.eqb_refl in E by lia. discriminate.
  - simpl. split; [discriminate | intros (k & H & _); discriminate].
Qed.

(** A component that rounds to zero at three decimals gives no term. *)
Lemma kept_terms (d : dtype) (l : list complex) (iv : nat * complex) :
  In iv (filter (kept d) (enumerate l)) <->
  In iv (enumerate l) /\ complex_nonzero (round_complex d (snd iv) 3) = true.
Proof. apply filter_In. Qed.

Lemma filter_none {A : Type} (f : A -> bool) (l : list A) :
  (forall x, In x l -> f x = false) -> filter f l = [].
Proof.
  induction l as [|a l IH]; intro H; [reflexivity|]. simpl.
  rewrite (H a (or_introl eq_refl)). apply IH. intros x Hx. apply H. now right.
Qed.

(** A vector whose length is a power of two and whose components all round
    to zero is rendered by the empty string. *)
Theorem state_vector_ket_shape_all_zero (d : dtype) (l : list complex) (k : nat) :
  List.length l = (2 ^ k)%nat ->
  (forall v, In v l -> complex_nonzero (round_complex d v 3) = false) ->
  state_vector_ket_shape (vector d l) = Ok "".
Proof.
  intros Hlen Hzero. apply state_vector_ket_shape_returns.
  exists k. split; [unfold vector; simpl; now rewrite Hlen|].
  simpl data. cbn [element_type vector]. rewrite filter_none; [reflexivity|].
  intros [i v] Hin. unfold kept; simpl. apply Hzero.
  unfold enumerate in Hin. exact (in_combine_r _ _ _ _ Hin).
Qed.

Lemma slice_from_sign (sign body rest : string) :
  sign = "+ " \/ sign = "- " ->
  slice_from 2 ((sign ++ body) ++ rest) = body ++ rest.
Proof. intros [-> | ->]; reflexivity. Qed.

Lemma join_cons (sep first : string) (others : list string) :
  exists suffix, join sep (first :: others) = first ++ suffix.
Proof.
  destruct others as [|t ts].
  - exists "". simpl. now rewrite append_empty_r.
  - eexists. reflexivity.
Qed.

(** The sign of the first term is lost, whichever it is: the result is the
    sum of the terms without the two characters that open the first one. *)
Theorem state_vector_ket_shape_drops_first_sign (d : dtype) (l : list complex)
    (k i : nat) (v : complex) (others : list (nat * complex)) :
  List.length l = (2 ^ k)%nat ->
  filter (kept d) (enumerate l) = (i, v) :: others ->
  exists body suffix,
    (with_sign d v = "+ " ++ body \/ with_sign d v = "- " ++ body) /\
    join " " (map (ket_term d k) ((i, v) :: others)) = with_sign d v ++ suffix /\
    state_vector_ket_shape (vector d l) = Ok (body ++ suffix).
Proof.
  intros Hlen Hkept.
  destruct (with_sign_leading_sign d v) as (body & Hsign).
  destruct (join_cons " " (ket_term d k (i, v)) (map (ket_term d k) others))
    as (suffix0 & Hjoin).
  set (label := "|" ++ binary_repr i k ++ rangle).
  assert (Hassoc : forall s t u : string, (s ++ t) ++ u = s ++ t ++ u).
  { induction s as [|c s IH]; intros; simpl; [reflexivity | now rewrite IH]. }
  assert (Hj : join " " (map (ket_term d k) ((i, v) :: others))
               = with_sign d v ++ label ++ suffix0).
  { cbn [map]. rewrite Hjoin. unfold ket_term; cbn [fst snd]. apply Hassoc. }
  exists body, (label ++ suffix0).
  split; [exact Hsign|]. split; [exact Hj|].
  apply state_vector_ket_shape_returns. exists k.
  split; [unfold vector; cbn [shape]; now rewrite Hlen|].
  change (data (vector d l)) with l.
  change (element_type (vector d l)) with d. rewrite Hkept, Hj.
  destruct Hsign as [E | E]; rewrite E; symmetry; apply slice_from_sign; auto.
Qed.

(** *** The labels of the kets *)

(** [int(s, 2)] on a string of binary digits. *)
Fixpoint int_base2_from (acc : nat) (s : string) : nat :=
  match s with
  | EmptyString => acc
  | String c rest =>
      int_base2_from (2 * acc + (if Ascii.eqb c "1" then 1 else 0)) rest
  end.

Definition int_base2 (s : string) : nat := int_base2_from 0 s.

Lemma int_base2_from_app (s t : string) (acc : nat) :
  int_base2_from acc (s ++ t) = int_base2_from (int_base2_from acc s) t.
Proof.
  revert acc. induction s as [|c s IH]; intro acc; simpl; [reflexivity|].
  apply IH.
Qed.

Lemma int_base2_bin_pos (p : positive) : int_base2 (bin_pos p) = Pos.to_nat p.
Proof.
  unfold int_base2. induction p as [q IH | q IH |]; simpl bin_pos.
  - rewrite int_base2_from_app, IH. simpl. lia.
  - rewrite int_base2_from_app, IH. simpl. lia.
  - reflexivity.
Qed.

Lemma int_base2_zeros (n : nat) (s : string) :
  int_base2 (replicate n "0" ++ s) = int_base2 s.
Proof. unfold int_base2. induction n as [|n IH]; simpl; [reflexivity | exact IH]. Qed.

Lemma length_append (s t : string) :
  String.length (s ++ t) = String.length s + String.length t.
Proof. induction s as [|c s IH]; simpl; [reflexivity | now rewrite IH]. Qed.

Lemma length_replicate (n : nat) (c : ascii) : String.length (replicate n c) = n.
Proof. induction n as [|n IH]; simpl; [reflexivity | now rewrite IH]. Qed.

Lemma length_bin_pos (p : positive) (k : nat) :
  Pos.to_nat p < 2 ^ k -> 1 <= String.length (bin_pos p) <= k.
Proof.
  revert k. induction p as [q IH | q IH |]; intros k H; simpl bin_pos.
  - destruct k as [|k]; [simpl in H; lia|].
    rewrite length_append; simpl String.length.
    rewrite Pos2Nat.inj_xI, Nat.pow_succ_r' in H.
    specialize (IH k). lia.
  - destruct k as [|k]; [simpl in H; lia|].
    rewrite length_append; simpl String.length.
    rewrite Pos2Nat.inj_xO, Nat.pow_succ_r' in H.
    specialize (IH k). lia.
  - destruct k as [|k]; [simpl in H; lia|]. simpl. lia.
Qed.

(** In the text of a vector of [2^k] components the label of component
    [i] is [i] written in binary, on [k] digits (on one digit when the
    vector has a single component). *)
Theorem ket_label (i k : nat) :
  i < 2 ^ k ->
  int_base2 (binary_repr i k) = i /\
  String.length (binary_repr i k) = Nat.max k 1.
Proof.
  intro Hi. unfold binary_repr.
  destruct (N.of_nat i) as [|p] eqn:E.
  - assert (i = 0) by lia. subst i. split.
    + rewrite <- (append_empty_r (replicate _ "0")). apply int_base2_zeros.
    + rewrite length_replicate. destruct k; simpl; lia.
  - assert (Hp : Pos.to_nat p = i) by lia.
    rewrite <- Hp in Hi. pose proof (@length_bin_pos p k Hi) as Hlen. split.
    + rewrite int_base2_zeros, int_base2_bin_pos. exact Hp.
    + rewrite length_append, length_replicate. lia.
Qed.

(** A value within rounding of one is written as the sign alone. *)
Theorem with_sign_rounds_to_one (d : dtype) (val : complex) :
  is_one (np_round (precision d) (real val) 3) = true ->
  is_zero (np_round (precision d) (imag val) 3) = true ->
  with_sign d val = "+ ".
Proof.
  intros Hre Him.
  unfold with_sign, _remove_null_imag, round_complex; cbn [real imag].
  rewrite Him. cbn [negb].
  destruct (np_round (precision d) (real val) 3) as [q | s |];
    try discriminate Hre.
  cbn [is_one] in Hre. apply Qeq_bool_eq in Hre.
  unfold _remove_unnecessary_decimals, float32, cast.
  rewrite (round_to_comp binary32 Hre).
  reflexivity.
Qed.

(** *** clean_1D_array *)

Lemma as_int_if_whole_int (n : Z) :
  as_int_if_whole (Finite (inject_Z n)) = Ok (PartInt n).
Proof.
  unfold as_int_if_whole; cbn [py_int equals_int].
  now rewrite int_of_inject_Z, Qeq_bool_refl.
Qed.




Lemma startswith_str_int_j (b : Z) :
  startswith (str_int b ++ "j") "-" = (b <? 0)%Z.
Proof.
  unfold str_int. destruct b as [|p|p]; simpl Z.to_int;
    unfold NilZero.string_of_int; try reflexivity.
  destruct (Pos.to_uint p); reflexivity.
Qed.

(** Integer parts up to 214 in absolute value come out of the conversion
    to single precision and of the rounding at seven decimals as they are. *)
Lemma clean_element_integer_parts (a b : Z) :
  (Z.abs a <= 214)%Z -> (Z.abs b <= 214)%Z ->
  clean_element 7 (astype complex64 (Cx (inject_Z a) (inject_Z b)))
  = Ok (element_text (PartInt a) (PartInt b)).
Proof.
  intros Ha Hb. unfold astype, Cx; cbn [real imag precision cast].
  rewrite !round_to_int by (cbn [prec emax binary32]; lia).
  unfold clean_element; cbn [real imag].
  now rewrite (@np_round_7_int a Ha), (@np_round_7_int b Hb),
    !as_int_if_whole_int.
Qed.

(** An integer-valued real element up to 214 in absolute value is rendered
    by its digits alone. *)
Lemma clean_element_int (n : Z) :
  (Z.abs n <= 214)%Z ->
  clean_element 7 (astype complex64 (Cx (inject_Z n) 0)) = Ok (str_int n).
Proof.
  intro Hn. change 0%Q with (inject_Z 0).
  rewrite (@clean_element_integer_parts n 0 Hn) by (simpl; lia).
  unfold element_text. cbn [part_is_zero Z.eqb negb].
  rewrite andb_false_r. cbn [str_part]. now rewrite append_empty_r.
Qed.

Lemma for_each_map {A B C : Type} (body : B -> result C) (f : A -> B)
    (g : A -> C) (l : list A) :
  (forall a, In a l -> body (f a) = Ok (g a)) ->
  for_each body (map f l) = Ok (map g l).
Proof.
  induction l as [|a l IH]; intro H; [reflexivity|].
  cbn [map for_each]. rewrite (H a (or_introl eq_refl)).
  rewrite IH; [reflexivity|]. intros x Hx. apply H. now right.
Qed.

(** A list of integer-valued floats up to 214 in absolute value is
    rendered as the list of the integers. *)
Lemma clean_1D_array_ints (l : list Z) :
  Forall (fun n => (Z.abs n <= 214)%Z) l ->
  clean_1D_array (map (fun n => Cx (inject_Z n) 0) l) None
  = Ok ("[" ++ join ", " (map str_int l) ++ "]").
Proof.
  intro Hl. unfold clean_1D_array. rewrite map_map.
  rewrite (for_each_map (clean_element 7)
             (fun n => astype complex64 (Cx (inject_Z n) 0)) str_int);
    [reflexivity|].
  intros n Hn. apply clean_element_int.
  rewrite Forall_forall in Hl. now apply Hl.
Qed.

(** The loop fails exactly when a rounded part is infinite or NaN: with
    [OverflowError] for an infinity, with [ValueError] for NaN, and the real
    part is converted first. *)
Theorem clean_element_raises (round : Z) (element : complex) :
  let real_part := np_round binary32 (real element) round in
  let imag_part := np_round binary32 (imag element) round in
  (is_finite real_part = false ->
   clean_element round element = Raise (conversion_error real_part)) /\
  (is_finite real_part = true -> is_finite imag_part = false ->
   clean_element round element = Raise (conversion_error imag_part)) /\
  (is_finite real_part = true -> is_finite imag_part = true ->
   exists text, clean_element round element = Ok text).
Proof.
  intros real_part imag_part. unfold clean_element.
  fold real_part. fold imag_part.
  destruct real_part as [x | s |]; destruct imag_part as [y | t |];
    repeat split; intros; try discriminate; try reflexivity;
    eexists; reflexivity.
Qed.


(** *** Further facts on the formatting functions *)

(** [_remove_null_imag] returns the value rounded at three decimals, in
    its simplest type: a complex when the imaginary part is not zero;
    otherwise the real part in single precision, as an [int] when it is an
    integer and as a float when it is not. *)
Theorem remove_null_imag_simplest (d : dtype) (val : complex) :
  let re := np_round (precision d) (real val) 3 in
  let im := np_round (precision d) (imag val) 3 in
  match _remove_null_imag d val with
  | PyInt n =>
      (exists x, float32 re = Finite x /\ (x == inject_Z n)%Q)
      /\ is_zero im = true
  | Float32 x =>
      x = float32 re
      /\ (forall q, x = Finite q -> is_integer q = false)
      /\ is_zero im = true
  | NpComplex d' z => d' = d /\ z = Complex re im /\ is_zero im = false
  end.
Proof.
  intros re im. unfold _remove_null_imag, round_complex; cbn [real imag].
  fold re. fold im.
  destruct (is_zero im) eqn:Him; cbn [negb].
  - unfold _remove_unnecessary_decimals.
    destruct (float32 re) as [x | s |] eqn:E.
    + destruct (is_integer x) eqn:Hx.
      * split; [|reflexivity]. exists x. split; [reflexivity|].
        symmetry. now apply int_of_exact.
      * split; [reflexivity|]. split; [|reflexivity].
        intros q Hq. inversion Hq; subst. exact Hx.
    + split; [reflexivity|]. split; [|reflexivity]. discriminate.
    + split; [reflexivity|]. split; [|reflexivity]. discriminate.
  - auto.
Qed.

(** An element with integer parts [a] and [b] up to 214 in absolute value,
    at the default precision: [a] alone when [b] is zero, [b] followed by
    [j] when [a] is zero, otherwise [a], a [+] unless [b] is negative, [b]
    and [j]. *)
Theorem clean_element_gaussian (a b : Z) :
  (Z.abs a <= 214)%Z -> (Z.abs b <= 214)%Z ->
  clean_element 7 (astype complex64 (Cx (inject_Z a) (inject_Z b))) =
    Ok (if (b =? 0)%Z then str_int a
        else if (a =? 0)%Z then str_int b ++ "j"
        else str_int a ++ (if (b <? 0)%Z then "" else "+") ++ str_int b ++ "j").
Proof.
  intros Ha Hb. rewrite (@clean_element_integer_parts a b Ha Hb).
  f_equal. unfold element_text. cbn [part_is_zero].
  destruct (b =? 0)%Z; cbn [negb].
  - rewrite andb_false_r. cbn [str_part]. apply append_empty_r.
  - rewrite andb_true_r.
    destruct (a =? 0)%Z.
    + reflexivity.
    + cbn [part_not_empty andb str_part].
      rewrite startswith_str_int_j. destruct (b <? 0)%Z; reflexivity.
Qed.

(** Whether a component is kept depends on the precision of the array:
    the single-precision float nearest to 0.0005 rounds to zero at three
    decimals in a [complex64] vector, where the component is dropped, and to
    0.001 in a [complex128] vector, where it is kept. *)
Theorem state_vector_ket_shape_single_precision :
  let x := Complex (float32 (literal 0.0005)) (Finite 0) in
  round_complex complex64 x 3 = Cx 0 0 /\
  round_complex complex128 x 3 = Complex (literal 0.001) (Finite 0) /\
  kept complex64 (1, x) = false /\
  kept complex128 (1, x) = true /\
  state_vector_ket_shape (vector complex64 [Cx 1 0; x]) = Ok "|0⟩".
Proof. vm_compute. repeat split; reflexivity. Qed.

(** A matrix of integer-valued floats up to 214 in absolute value is
    rendered as the rows of the integers. *)
Theorem clean_matrix_ints (matrix : list (list Z)) :
  Forall (Forall (fun n => (Z.abs n <= 214)%Z)) matrix ->
  clean_matrix (map (map (fun n => Cx (inject_Z n) 0)) matrix)
  = Ok ("[" ++ join (String "," (String (ascii_of_nat 10) " "))
                    (map (fun row => "[" ++ join ", " (map str_int row) ++ "]")
                         matrix)
            ++ "]").
Proof.
  intro H. unfold clean_matrix.
  rewrite (for_each_map (fun row => clean_1D_array row None)
             (map (fun n => Cx (inject_Z n) 0))
             (fun row => "[" ++ join ", " (map str_int row) ++ "]"));
    [reflexivity|].
  intros row Hrow. apply clean_1D_array_ints.
  rewrite Forall_forall in H. now apply H.
Qed.

(** The last two rows of the docstring's example of [clean_matrix]. *)
Example clean_matrix_rows :
  clean_matrix [[Cx 1 0; Cx 0 0; Cx 5 0]; [Cx 1 0; Cx 2 0; Cx 3 0]]
    = Ok ("[[1, 0, 5]," ++ String (ascii_of_nat 10) " [1, 2, 3]]").
Proof. vm_compute. reflexivity. Qed.

End Formatting.

(** *** Runs with the decimal formatter *)

Definition str_float32 : np_float -> string := float_repr binary32.

(** A Python [complex] literal. *)
Definition complex_literal (re im : Q) : complex :=
  Complex (literal re) (literal im).

(** The docstring's examples of [clean_1D_array]. *)
Example clean_1D_array_decimals :
  clean_1D_array str_float32
    [complex_literal 1.234567895546 0; complex_literal 2.3456789645645 0;
     complex_literal 3.45678945645 0] None
    = Ok "[1.2345679, 2.345679, 3.4567895]".
Proof. vm_compute. reflexivity. Qed.

Example clean_1D_array_complex :
  clean_1D_array str_float32 [Cx 1 2; Cx 3 4; Cx 5 6] None
    = Ok "[1+2j, 3+4j, 5+6j]".
Proof. vm_compute. reflexivity. Qed.

Example clean_1D_array_zero :
  clean_1D_array str_float32 [Cx 1 0; Cx 0 0; Cx 5 0] None = Ok "[1, 0, 5]".
Proof. vm_compute. reflexivity. Qed.

Example clean_1D_array_small :
  clean_1D_array str_float32
    [complex_literal (-0.01e-09) 9.82811211e-01;
     complex_literal 1.90112689e-01 5.22320655e-09;
     complex_literal 2.91896816e-09 (-2.15963155e-09);
     complex_literal (-4.17753839e-09) (-5.64638430e-09);
     complex_literal 9.44235988e-08 (-8.58300965e-01);
     complex_literal (-5.42123454e-08) 2.07957438e-07;
     complex_literal 5.13144658e-01 2.91786504e-08;
     complex_literal (-0.175980538) (-1.44108434e-07)] None
    = Ok "[0.9828112j, 0.1901127, 0, 0, 1e-07-0.858301j, -1e-07+2e-07j, 0.5131446, -0.1759805-1e-07j]".
Proof. vm_compute. reflexivity. Qed.

(** The docstring's example of [clean_matrix]. *)
Example clean_matrix_docstring :
  clean_matrix str_float32
    [[complex_literal 1.234567895546 0; complex_literal 2.3456789645645 0;
      complex_literal 3.45678945645 0];
     [Cx 1 0; Cx 0 0; Cx 5 0];
     [Cx 1 0; Cx 2 0; Cx 3 0]]
    = Ok ("[[1.2345679, 2.345679, 3.4567895]," ++ String (ascii_of_nat 10)
          (" [1, 0, 5]," ++ String (ascii_of_nat 10) " [1, 2, 3]]")).
Proof. vm_compute. reflexivity. Qed.

(** Single precision at work: seven decimals are not kept, an integer
    beyond 24 bits moves to its neighbour, an integer above 214 gets
    decimals, and a large finite value overflows in the rounding and makes
    the call fail. *)
Example clean_1D_array_single_precision :
  clean_1D_array str_float32 [complex_literal 123.4567891 0] None
    = Ok "[123.45678]" /\
  clean_1D_array str_float32 [Cx 16777217 0; Cx 215 0; Cx 214 0] None
    = Ok "[16777216, 215.00002, 214]" /\
  clean_1D_array str_float32 [complex_literal 1e32 0] None
    = Raise OverflowError.
Proof. vm_compute. repeat split; reflexivity. Qed.

(** [with_sign] on values that are not integers, and on integers that
    single precision does not hold. *)
Example with_sign_decimals :
  with_sign str_float32 complex_repr axis_hypot complex64 (Cx 0.5 0) = "+ 0.5" /\
  with_sign str_float32 complex_repr axis_hypot complex64 (Cx (-0.5) 0) = "- 0.5" /\
  with_sign str_float32 complex_repr axis_hypot complex64 (Cx (-0.5) 0.25)
    = "- (0.5-0.25j)" /\
  with_sign str_float32 complex_repr axis_hypot complex128 (Cx 16777217 0)
    = "+ 16777216" /\
  with_sign str_float32 complex_repr axis_hypot complex64 (Cx 134219 0)
    = "+ 134219.02" /\
  with_sign str_float32 complex_repr axis_hypot complex64
    (Complex (float32 (literal 0.0005)) (Finite 0)) = "+ 0j" /\
  with_sign str_float32 complex_repr axis_hypot complex128
    (Complex (float32 (literal 0.0005)) (Finite 0)) = "+ 0.001".
Proof. vm_compute. repeat split; reflexivity. Qed.

(** C6, as the spec states it, fails: the result is not ["+ |00⟩"]. *)
Lemma state_vector_ket_shape_basis_00_no_sign :
  state_vector_ket_shape str_float32 complex_repr axis_hypot
    (vector complex64 [Cx 1 0; Cx 0 0; Cx 0 0; Cx 0 0]) <> Ok "+ |00⟩" /\
  state_vector_ket_shape str_float32 complex_repr axis_hypot
    (vector complex128 [Cx 1 0; Cx 0 0; Cx 0 0; Cx 0 0]) <> Ok "+ |00⟩".
Proof. split; intro H; vm_compute in H; discriminate H. Qed.

(** [-1] and [1] as the first amplitude: the sign is not shown, and the
    one is elided only when it is positive; a Bell state. *)
Example state_vector_ket_shape_minus_one :
  state_vector_ket_shape str_float32 complex_repr axis_hypot
    (vector complex64 [Cx (-1) 0; Cx 0 0]) = Ok "1|0⟩" /\
  state_vector_ket_shape str_float32 complex_repr axis_hypot
    (vector complex64 [Cx 1 0; Cx 0 0]) = Ok "|0⟩" /\
  state_vector_ket_shape str_float32 complex_repr axis_hypot
    (vector complex128
       [complex_literal 0.7071067811865476 0; Cx 0 0; Cx 0 0;
        complex_literal (-0.7071067811865476) 0])
    = Ok "0.707|00⟩ - 0.707|11⟩".
Proof. vm_compute. repeat split; reflexivity. Qed.


Lemma with_sign_rounds_to_one_witness :
  with_sign str_float32 complex_repr axis_hypot complex64
    (Complex (float32 (literal 1.0004)) (float32 (literal 0.0001))) = "+ ".
Proof.
  apply (@with_sign_rounds_to_one str_float32 complex_repr axis_hypot complex64
           (Complex (float32 (literal 1.0004)) (float32 (literal 0.0001))));
    vm_compute; reflexivity.
Defined.

Lemma state_vector_ket_shape_all_zero_witness :
  state_vector_ket_shape str_float32 complex_repr axis_hypot
    (vector complex64
       [Complex (float32 (literal 0.0001)) (Finite 0);
        Complex (Finite 0) (float32 (literal (-0.0001)))]) = Ok "".
Proof.
  apply (@state_vector_ket_shape_all_zero str_float32 complex_repr axis_hypot
           complex64
           [Complex (float32 (literal 0.0001)) (Finite 0);
            Complex (Finite 0) (float32 (literal (-0.0001)))] 1).
  - reflexivity.
  - intros v [<- | [<- | []]]; vm_compute; reflexivity.
Defined.

Lemma state_vector_ket_shape_drops_first_sign_witness :
  exists body suffix,
    (with_sign str_float32 complex_repr axis_hypot complex64 (Cx (-2) 0)
       = "+ " ++ body \/
     with_sign str_float32 complex_repr axis_hypot complex64 (Cx (-2) 0)
       = "- " ++ body) /\
    join " " (map (ket_term str_float32 complex_repr axis_hypot complex64 1)
                  [(0, Cx (-2) 0); (1, Cx 0 3)])
      = with_sign str_float32 complex_repr axis_hypot complex64 (Cx (-2) 0)
          ++ suffix /\
    state_vector_ket_shape str_float32 complex_repr axis_hypot
      (vector complex64 [Cx (-2) 0; Cx 0 3]) = Ok (body ++ suffix).
Proof.
  apply (@state_vector_ket_shape_drops_first_sign str_float32 complex_repr
           axis_hypot complex64 [Cx (-2) 0; Cx 0 3] 1 0 (Cx (-2) 0)
           [(1, Cx 0 3)]).
  - reflexivity.
  - vm_compute. reflexivity.
Defined.

Lemma ket_label_witness :
  int_base2 (binary_repr 5 4) = 5 /\ String.length (binary_repr 5 4) = Nat.max 4 1.
Proof. apply (@ket_label 5 4). simpl. lia. Defined.



Lemma clean_element_gaussian_witness :
  clean_element str_float32 7 (astype complex64 (Cx (inject_Z 3) (inject_Z (-4))))
  = Ok "3-4j".
Proof.
  apply (@clean_element_gaussian str_float32 3 (-4)); simpl; lia.
Defined.

Lemma clean_element_raises_witness :
  clean_element str_float32 7 (Complex (Finite 1) NaN) = Raise ValueError.
Proof.
  apply (proj1 (proj2 (@clean_element_raises str_float32 7
                         (Complex (Finite 1) NaN)))); reflexivity.
Defined.

Lemma clean_matrix_ints_witness :
  clean_matrix str_float32
    (map (map (fun n => Cx (inject_Z n) 0)) [[1; 0]; [0; -1]]%Z)
  = Ok ("[[1, 0]," ++ String (ascii_of_nat 10) " [0, -1]]").
Proof.
  apply (@clean_matrix_ints str_float32 [[1; 0]; [0; -1]]%Z).
  repeat constructor; simpl; lia.
Defined.
(** *** one_lined_repr *)

(** A Python [str], as the list of its code points. *)
Definition pystr : Type := list N.

(** What [\s] matches in a [str] pattern: the Unicode whitespace. *)
Definition is_space (c : N) : bool :=
  ((9 <=? c) && (c <=? 13) || (28 <=? c) && (c <=? 32)
   || (c =? 133) || (c =? 160) || (c =? 5760)
   || (8192 <=? c) && (c <=? 8202)
   || (c =? 8232) || (c =? 8233) || (c =? 8239) || (c =? 8287)
   || (c =? 12288))%N.

(** [re.sub(r"\s+", " ", s)], reading [s] from the left; [in_run] tells
    that the character before was whitespace, already replaced. *)
Fixpoint sub_whitespace_from (in_run : bool) (s : pystr) : pystr :=
  match s with
  | [] => []
  | c :: rest =>
      if is_space c then
        if in_run then sub_whitespace_from true rest
        else 32%N :: sub_whitespace_from true rest
      else c :: sub_whitespace_from false rest
  end.

Definition sub_whitespace (s : pystr) : pystr := sub_whitespace_from false s.

(** display.py, lines 151-158; [repr] is Python's [repr]. *)
Definition one_lined_repr {A : Type} (repr : A -> pystr) (obj : A) : pystr :=
  sub_whitespace (repr obj).

(** A text on one line: its only whitespace is the space, and no
    whitespace follows another. *)
Definition one_lined (s : pystr) : Prop :=
  (forall c, In c s -> is_space c = true -> c = 32%N) /\
  (forall before a b after,
      s = (before ++ a :: b :: after)%list -> is_space a = true -> is_space b = false).

Lemma sub_whitespace_from_spaces (in_run : bool) (s : pystr) (c : N) :
  In c (sub_whitespace_from in_run s) -> is_space c = true -> c = 32%N.
Proof.
  revert in_run. induction s as [|x s IH]; intros in_run Hin Hc; [destruct Hin|].
  simpl in Hin. destruct (is_space x) eqn:Hx.
  - destruct in_run; [now apply (IH true)|].
    destruct Hin as [<- | Hin]; [reflexivity | now apply (IH true)].
  - destruct Hin as [<- | Hin]; [congruence | now apply (IH false)].
Qed.

Lemma sub_whitespace_from_head (s : pystr) (b : N) (after : pystr) :
  sub_whitespace_from true s = b :: after -> is_space b = false.
Proof.
  induction s as [|x s IH]; simpl; [discriminate|].
  destruct (is_space x) eqn:Hx; [exact IH|].
  intro H. inversion H; subst. exact Hx.
Qed.

Lemma sub_whitespace_from_adjacent (in_run : bool) (s before after : pystr)
    (a b : N) :
  sub_whitespace_from in_run s = (before ++ a :: b :: after)%list ->
  is_space a = true -> is_space b = false.
Proof.
  revert in_run before. induction s as [|x s IH]; intros in_run before H Ha.
  - destruct before; discriminate.
  - simpl in H. destruct (is_space x) eqn:Hx.
    + destruct in_run; [exact (IH true before H Ha)|].
      destruct before as [|y before]; simpl in H; inversion H; subst.
      * eapply sub_whitespace_from_head. eassumption.
      * eapply (IH true). eassumption. assumption.
    + destruct before as [|y before]; simpl in H; inversion H; subst.
      * congruence.
      * eapply (IH false). eassumption. assumption.
Qed.

Lemma sub_whitespace_one_lined (s : pystr) : one_lined (sub_whitespace s).
Proof.
  unfold sub_whitespace. split.
  - intros c. apply sub_whitespace_from_spaces.
  - intros before a b after. apply sub_whitespace_from_adjacent.
Qed.

(** The result is on one line, whatever the object and its [repr]. *)
Theorem one_lined_repr_one_lined {A : Type} (repr : A -> pystr) (obj : A) :
  one_lined (one_lined_repr repr obj).
Proof. unfold one_lined_repr. apply sub_whitespace_one_lined. Qed.

Lemma sub_whitespace_from_fixed (s : pystr) (in_run : bool) :
  one_lined s ->
  (in_run = true -> forall b after, s = b :: after -> is_space b = false) ->
  sub_whitespace_from in_run s = s.
Proof.
  revert in_run. induction s as [|x s IH]; intros in_run [Hsp Hadj] Hrun;
    [reflexivity|].
  assert (Htail : one_lined s).
  { split.
    - intros c Hc. apply Hsp. now right.
    - intros before a b after E. apply (Hadj (x :: before) a b after).
      now rewrite E. }
  simpl. destruct (is_space x) eqn:Hx.
  - destruct in_run.
    + rewrite (Hrun eq_refl x s eq_refl) in Hx. discriminate.
    + rewrite (Hsp x (or_introl eq_refl) Hx). f_equal.
      apply IH; [exact Htail|]. intros _ b after E. subst s.
      exact (Hadj [] x b after eq_refl Hx).
  - f_equal. apply IH; [exact Htail|]. discriminate.
Qed.

(** The texts that [one_lined_repr] leaves as they are are exactly the
    texts on one line; so applying it twice is applying it once. *)
Theorem sub_whitespace_fixed_point (s : pystr) :
  (sub_whitespace s = s <-> one_lined s) /\
  sub_whitespace (sub_whitespace s) = sub_whitespace s.
Proof.
  assert (Hout : one_lined (sub_whitespace s))
    by apply sub_whitespace_one_lined.
  assert (Hfix : forall t, one_lined t -> sub_whitespace t = t).
  { intros t Ht. apply sub_whitespace_from_fixed; [exact Ht | discriminate]. }
  split; [split|].
  - intro E. now rewrite <- E.
  - apply Hfix.
  - now apply Hfix.
Qed.

(** The characters that are not whitespace are kept, in their order, and
    the text does not grow. *)
Theorem sub_whitespace_keeps_text (s : pystr) :
  filter (fun c => negb (is_space c)) (sub_whitespace s)
    = filter (fun c => negb (is_space c)) s /\
  List.length (sub_whitespace s) <= List.length s.
Proof.
  unfold sub_whitespace. generalize false as in_run.
  induction s as [|x s IH]; intro in_run; [split; reflexivity|].
  simpl. destruct (is_space x) eqn:Hx; simpl.
  - destruct in_run; simpl.
    + destruct (IH true). split; [assumption | lia].
    + change (is_space 32) with true. simpl. destruct (IH true).
      split; [assumption | lia].
  - rewrite Hx. simpl. destruct (IH false). split; [now f_equal | lia].
Qed.

(** A [repr] over three lines, with a tabulation and trailing blanks:
    ["a \n\t b\n"] becomes ["a b "]. *)
Example one_lined_repr_lines :
  one_lined_repr (fun x : pystr => x) [97; 32; 10; 9; 32; 98; 10]%N
    = [97; 32; 98; 32]%N.
Proof. reflexivity. Qed.


End Display.

(** ** The gates and circuits of mpqp *)

Module native_gates.

(** Modelled from the spec: the gate classes of
    [mpqp.core.instruction.gates.native_gates], which [circuit.py] imports
    and whose source is not at hand.  A gate kind is a tag, as section 9 of
    the spec proposes; the tags are the members of [NATIVE_GATES]. *)
Inductive NativeGate : Type :=
| CNOT | CRk | CZ | H | Id | P | Rk | Rx | Ry | Rz
| S | SWAP | T | TOF | U | X | Y | Z.

End native_gates.

Definition NativeGate : Type := native_gates.NativeGate.

(** The capability table of the gate kinds: what [issubclass] answers.
    Modelled from the spec (arity class, parameter set) and from the
    assertions of [random_circuit]: the rotation gates that reach line 132
    are [Rx], [Ry], [Rz] and [P], the only parametrized gate on several
    qubits is [CRk]. *)
Module GateClasses.

Import native_gates.

(** Modelled from the spec: the list [NATIVE_GATES] of the gate classes. *)
Definition NATIVE_GATES : list NativeGate :=
  [CNOT; CRk; CZ; H; Id; P; Rk; Rx; Ry; Rz; S; SWAP; T; TOF; U; X; Y; Z].

(** [issubclass(gate, SingleQubitGate)]. *)
Definition issubclass_SingleQubitGate (gate : NativeGate) : bool :=
  match gate with
  | CNOT | CRk | CZ | SWAP | TOF => false
  | _ => true
  end.

(** [issubclass(gate, ParametrizedGate)]. *)
Definition issubclass_ParametrizedGate (gate : NativeGate) : bool :=
  match gate with
  | CRk | P | Rk | Rx | Ry | Rz | U => true
  | _ => false
  end.

(** [issubclass(gate, RotationGate)]. *)
Definition issubclass_RotationGate (gate : NativeGate) : bool :=
  match gate with
  | CRk | P | Rk | Rx | Ry | Rz => true
  | _ => false
  end.

Definition issubclass_U (gate : NativeGate) : bool :=
  match gate with U => true | _ => false end.

Definition issubclass_Rk (gate : NativeGate) : bool :=
  match gate with Rk => true | _ => false end.

(** [gate == TOF]; no gate kind derives from [TOF], so this is
    [issubclass(gate, TOF)] as well. *)
Definition is_TOF (gate : NativeGate) : bool :=
  match gate with TOF => true | _ => false end.

Definition is_SWAP (gate : NativeGate) : bool :=
  match gate with SWAP => true | _ => false end.

(** The number of qubits a gate of this kind acts on. *)
Definition arity (gate : NativeGate) : nat :=
  match gate with
  | TOF => 3
  | CNOT | CRk | CZ | SWAP => 2
  | _ => 1
  end.

End GateClasses.

Module Circuit.

Import Py.
Export GateClasses.

(** A gate parameter: a float drawn by [rng.uniform(0, 2 * np.pi)], named by
    the raw draw it comes from, or an integer. *)
Inductive param : Type :=
| Angle (draw : nat)
| Level (k : Z).

(** Modelled from the spec: a gate instance is a tagged operation with its
    parameters and its control and target qubits. *)
Record Gate : Type := MkGate {
  gate_class : NativeGate;
  parameters : list param;
  controls : list nat;
  targets : list nat
}.

(** An instruction of a circuit is a gate or something else (a measure, a
    barrier): [isinstance(instruction, Gate)]. *)
Inductive Instruction : Type :=
| IGate (gate : Gate)
| INonGate (label : string) (qubits : list nat).

(** Modelled from the spec: a circuit is an ordered sequence of
    instructions over a fixed qubit count. *)
Record QCircuit : Type := MkQCircuit {
  nb_qubits : nat;
  instructions : list Instruction
}.

(** [qcircuit.add(instruction)]. *)
Definition add (instruction : Instruction) (qcircuit : QCircuit) : QCircuit :=
  MkQCircuit (nb_qubits qcircuit) (instructions qcircuit ++ [instruction]).

(** [gate_class(control, target)] for a two-qubit gate without parameter:
    [SWAP(a, b)] has the two targets [a] and [b], the controlled gates one
    control and one target. *)
Definition two_qubit_gate (gate_class : NativeGate) (control target : nat) : Gate :=
  if is_SWAP gate_class then MkGate gate_class [] [] [control; target]
  else MkGate gate_class [] [control] [target].

(** [isinstance(gate, SingleQubitGate)]. *)
Definition isinstance_SingleQubitGate (gate : Gate) : bool :=
  issubclass_SingleQubitGate (gate_class gate).

(** *** The random generator *)

(** A [np.random.Generator]: the raw draws it will produce and how many it
    has produced. *)
Record Generator : Type := MkGenerator {
  draws : nat -> nat;
  position : nat
}.

Definition advance (g : Generator) : Generator :=
  MkGenerator (draws g) (S (position g)).

(** The state [random_circuit] works on: the generator and the circuit
    under construction. *)
Record state : Type := MkState {
  rng : Generator;
  qcircuit : QCircuit
}.

(** Computations that read and write the state and may raise; the state at
    the time of the raise is kept. *)
Definition M (A : Type) : Type := state -> result A * state.

Definition ret {A : Type} (a : A) : M A := fun s => (Ok a, s).

Definition raise {A : Type} (e : exn) : M A := fun s => (Raise e, s).

Definition bind {A B : Type} (c : M A) (k : A -> M B) : M B :=
  fun s =>
    match c s with
    | (Ok a, s') => k a s'
    | (Raise e, s') => (Raise e, s')
    end.

Notation "x <- c ;; k" := (bind c (fun x => k))
  (at level 61, c at next level, right associativity).
Notation "c ;; k" := (bind c (fun _ => k))
  (at level 61, right associativity).

Definition next_draw : M nat :=
  fun s => (Ok (draws (rng s) (position (rng s))),
            MkState (advance (rng s)) (qcircuit s)).

(** [rng.choice(a)]: an element of [a]; [ValueError] when [a] is empty. *)
Definition rng_choice {A : Type} (a : list A) : M A :=
  match a with
  | [] => raise ValueError
  | x :: _ => r <- next_draw ;; ret (nth (r mod List.length a) a x)
  end.

(** [rng.integers(low, high)]: an integer of [[low, high)]. *)
Definition rng_integers (low high : Z) : M Z :=
  r <- next_draw ;; ret (low + Z.of_nat r mod (high - low))%Z.

(** [rng.uniform(0, 2 * np.pi)]. *)
Definition rng_uniform : M param :=
  r <- next_draw ;; ret (Angle r).

(** [int(x)] for [x] drawn in [[0, 2 * pi)]: an integer from 0 to 6. *)
Definition int_of_angle (x : param) : param :=
  match x with
  | Angle r => Level (Z.of_nat (r mod 7))
  | Level k => Level k
  end.

Definition qcircuit_add (gate : Gate) : M unit :=
  fun s => (Ok tt, MkState (rng s) (add (IGate gate) (qcircuit s))).

(** *** random_circuit *)

(** [list(set(qubits) - excluded)]. *)
Definition without (qubits excluded : list nat) : list nat :=
  filter (fun q => negb (existsb (Nat.eqb q) excluded)) qubits.

(** The condition of lines 108-109 on one gate class. *)
Definition too_few_qubits (nb_qubits : nat) (gate : NativeGate) : bool :=
  negb (issubclass_SingleQubitGate gate)
  && ((is_TOF gate && (nb_qubits <=? 2)%nat) || (nb_qubits <=? 1)%nat).

(** The body of the loop, lines 115-149.  [TYPE_CHECKING] and [random] are
    not among the names the module imports (lines 1-23): evaluating them
    raises [NameError]. *)
Definition draw_gate (gate_classes : list NativeGate) (qubits : list nat) : M unit :=
  gate_class <- rng_choice gate_classes ;;
  target <- rng_choice qubits ;;
  if issubclass_SingleQubitGate gate_class then
    if issubclass_ParametrizedGate gate_class then
      if issubclass_U gate_class then
        theta <- rng_uniform ;;
        phi <- rng_uniform ;;
        gamma <- rng_uniform ;;
        qcircuit_add (MkGate gate_class [theta; phi; gamma] [] [target])
      else if issubclass_Rk gate_class then
        k <- rng_integers 1 10 ;;
        qcircuit_add (MkGate native_gates.Rk [Level k] [] [target])
      else if issubclass_RotationGate gate_class then
        raise (NameError "TYPE_CHECKING")
      else
        x <- rng_uniform ;;
        qcircuit_add (MkGate gate_class [int_of_angle x] [] [target]) ;;
        raise ValueError
    else
      qcircuit_add (MkGate gate_class [] [] [target])
  else
    control <- rng_choice (without qubits [target]) ;;
    if issubclass_ParametrizedGate gate_class then
      raise (NameError "TYPE_CHECKING")
    else if is_TOF gate_class then
      control2 <- rng_choice (without qubits [target; control]) ;;
      qcircuit_add (MkGate native_gates.TOF [] [control; control2] [target])
    else
      qcircuit_add (two_qubit_gate gate_class control target).

(** [for _ in range(nb_gates)]. *)
Fixpoint draw_gates (nb_gates : nat) (gate_classes : list NativeGate)
    (qubits : list nat) : M unit :=
  match nb_gates with
  | O => ret tt
  | S n => draw_gate gate_classes qubits ;; draw_gates n gate_classes qubits
  end.

(** The [seed] argument: an integer or a generator. *)
Inductive Seed : Type :=
| SeedInt (n : Z)
| SeedGenerator (g : Generator).

Section RandomCircuit.

(** [np.random.default_rng]. *)
Variable default_rng : option Z -> Generator.

(** Lines 91-96. *)
Definition initial_rng (seed : option Seed) : Generator :=
  match seed with
  | None => default_rng None
  | Some (SeedGenerator g) => g
  | Some (SeedInt n) => default_rng (Some n)
  end.

(** Lines 98-99. *)
Definition effective_gate_classes (gate_classes : option (list NativeGate))
  : list NativeGate :=
  match gate_classes with
  | None => NATIVE_GATES
  | Some l => l
  end.

(** circuit.py, lines 26-150.  [nb_qubits] and [nb_gates] are counts.  The
    result comes with the final state: the generator as the call leaves it
    and the circuit as built so far. *)
Definition random_circuit (gate_classes : option (list NativeGate))
    (nb_qubits : nat) (nb_gates : option nat) (seed : option Seed)
  : result QCircuit * state :=
  let rng := initial_rng seed in
  let gate_classes := effective_gate_classes gate_classes in
  (nb_gates <- match nb_gates with
               | None => n <- rng_integers 5 10 ;; ret (Z.to_nat n)
               | Some n => ret n
               end ;;
   let qubits := seq 0 nb_qubits in
   if existsb (too_few_qubits nb_qubits) gate_classes then raise ValueError
   else
     draw_gates nb_gates gate_classes qubits ;;
     fun s => (Ok (qcircuit s), s))
    (MkState rng (MkQCircuit nb_qubits [])).

(** *** What a produced gate must satisfy *)

(** The qubits of a gate are qubits of a circuit of [n] qubits, no control
    is a target, and no qubit is used twice. *)
Definition well_placed (n : nat) (gate : Gate) : Prop :=
  Forall (fun q => q < n) (controls gate ++ targets gate) /\
  (forall q, In q (controls gate) -> ~ In q (targets gate)) /\
  NoDup (controls gate ++ targets gate).

(** The gate classes whose branch of the loop refers to no undefined name:
    those without parameter, [U] and [Rk]. *)
Definition supported (gate : NativeGate) : bool :=
  negb (issubclass_ParametrizedGate gate) || issubclass_U gate || issubclass_Rk gate.

(** *** Facts on the primitives *)

Lemma bind_ok {A B : Type} (c : M A) (k : A -> M B) (s s' : state) (a : A) :
  c s = (Ok a, s') -> bind c k s = k a s'.
Proof. intro E. unfold bind. now rewrite E. Qed.

Lemma bind_raise {A B : Type} (c : M A) (k : A -> M B) (s s' : state) (e : exn) :
  c s = (Raise e, s') -> bind c k s = (Raise e, s').
Proof. intro E. unfold bind. now rewrite E. Qed.

Lemma rng_choice_ok {A : Type} (a : list A) (s : state) :
  a <> [] ->
  exists x, In x a /\
    rng_choice a s = (Ok x, MkState (advance (rng s)) (qcircuit s)).
Proof.
  destruct a as [|x0 a']; [contradiction|]. intros _.
  exists (nth (draws (rng s) (position (rng s)) mod List.length (x0 :: a')) (x0 :: a') x0).
  split; [|reflexivity].
  apply nth_In. apply Nat.mod_upper_bound. discriminate.
Qed.

Lemma in_without (qubits excluded : list nat) (q : nat) :
  In q (without qubits excluded) <-> In q qubits /\ ~ In q excluded.
Proof.
  unfold without. rewrite filter_In. split; intros [Hq Hex]; split; trivial.
  - intro Hin. rewrite negb_true_iff in Hex.
    assert (existsb (Nat.eqb q) excluded = true); [|congruence].
    apply existsb_exists. exists q. split; [assumption | apply Nat.eqb_refl].
  - apply negb_true_iff. destruct (existsb (Nat.eqb q) excluded) eqn:E; trivial.
    apply existsb_exists in E. destruct E as (x & Hx & Heq).
    apply Nat.eqb_eq in Heq. subst x. contradiction.
Qed.

Lemma in_not_nil {A : Type} (x : A) (l : list A) : In x l -> l <> [].
Proof. intros H ->. exact H. Qed.

(** With two qubits there is a control apart from the target. *)
Lemma without_target_not_empty (n target : nat) :
  2 <= n -> without (seq 0 n) [target] <> [].
Proof.
  intro Hn. apply in_not_nil with (x := if (target =? 0)%nat then 1 else 0).
  apply in_without. rewrite in_seq.
  destruct (Nat.eqb_spec target 0); simpl; split; try lia;
    intros [H | []]; lia.
Qed.

(** With three qubits there is a second control apart from both. *)
Lemma without_two_not_empty (n target control : nat) :
  3 <= n -> without (seq 0 n) [target; control] <> [].
Proof.
  intro Hn.
  apply in_not_nil with
    (x := if (negb (target =? 0) && negb (control =? 0))%nat then 0
          else if (negb (target =? 1) && negb (control =? 1))%nat then 1
          else 2).
  apply in_without. rewrite in_seq.
  destruct (Nat.eqb_spec target 0); destruct (Nat.eqb_spec control 0);
    destruct (Nat.eqb_spec target 1); destruct (Nat.eqb_spec control 1);
    simpl; split; try lia; intros [H | [H | []]]; lia.
Qed.

(** *** One round of the loop, on the supported classes *)

Tactic Notation "choose" constr(l) constr(s) constr(Hne)
    "as" ident(x) ident(Hin) ident(E) :=
  destruct (@rng_choice_ok _ l s Hne) as (x & Hin & E);
  rewrite (@bind_ok _ _ _ _ _ _ _ E); clear E.

Lemma draw_gate_ok (gate_classes : list NativeGate) (n : nat) (s : state) :
  gate_classes <> [] ->
  Forall (fun gate => arity gate <= n) gate_classes ->
  Forall (fun gate => supported gate = true) gate_classes ->
  exists gate s',
    draw_gate gate_classes (seq 0 n) s = (Ok tt, s') /\
    qcircuit s' = add (IGate gate) (qcircuit s) /\
    well_placed n gate.
Proof.
  intros Hne Hfit Hsup. unfold draw_gate.
  choose gate_classes s Hne as gate_class Hin E.
  rewrite Forall_forall in Hfit, Hsup.
  specialize (Hfit _ Hin). specialize (Hsup _ Hin).
  set (s1 := MkState (advance (rng s)) (qcircuit s)).
  assert (Hq : seq 0 n <> []).
  { destruct n; [destruct gate_class; simpl in Hfit; lia | discriminate]. }
  choose (seq 0 n) s1 Hq as target Ht E.
  apply in_seq in Ht.
  set (s2 := MkState (advance (rng s1)) (qcircuit s1)).
  assert (Hone : forall cls ps,
             well_placed n (MkGate cls ps [] [target])).
  { intros cls ps. unfold well_placed; simpl.
    repeat split; [repeat constructor; lia | tauto | repeat constructor; tauto]. }
  destruct gate_class; try discriminate Hsup; simpl in Hfit;
    cbn [issubclass_SingleQubitGate issubclass_ParametrizedGate issubclass_U
         issubclass_Rk issubclass_RotationGate is_TOF].
  - (* CNOT *)
    choose (without (seq 0 n) [target]) s2 (@without_target_not_empty n target Hfit)
      as control Hc E.
    apply in_without in Hc. destruct Hc as [Hc Hne']. apply in_seq in Hc.
    eexists; eexists; split; [reflexivity|]; split; [reflexivity|].
    unfold well_placed; simpl. simpl in Hne'.
    repeat split; [repeat constructor; lia | intuition lia |].
    repeat constructor; simpl; intuition lia.
  - (* CZ *)
    choose (without (seq 0 n) [target]) s2 (@without_target_not_empty n target Hfit)
      as control Hc E.
    apply in_without in Hc. destruct Hc as [Hc Hne']. apply in_seq in Hc.
    eexists; eexists; split; [reflexivity|]; split; [reflexivity|].
    unfold well_placed; simpl. simpl in Hne'.
    repeat split; [repeat constructor; lia | intuition lia |].
    repeat constructor; simpl; intuition lia.
  - (* H *) eexists; eexists; split; [reflexivity|]; split; [reflexivity|]; apply Hone.
  - (* Id *) eexists; eexists; split; [reflexivity|]; split; [reflexivity|]; apply Hone.
  - (* Rk *) eexists; eexists; split; [reflexivity|]; split; [reflexivity|]; apply Hone.
  - (* S *) eexists; eexists; split; [reflexivity|]; split; [reflexivity|]; apply Hone.
  - (* SWAP *)
    choose (without (seq 0 n) [target]) s2 (@without_target_not_empty n target Hfit)
      as control Hc E.
    apply in_without in Hc. destruct Hc as [Hc Hne']. apply in_seq in Hc.
    eexists; eexists; split; [reflexivity|]; split; [reflexivity|].
    unfold well_placed; simpl. simpl in Hne'.
    repeat split; [repeat constructor; lia | tauto |].
    repeat constructor; simpl; intuition lia.
  - (* T *) eexists; eexists; split; [reflexivity|]; split; [reflexivity|]; apply Hone.
  - (* TOF *)
    assert (H2 : 2 <= n) by lia.
    choose (without (seq 0 n) [target]) s2 (@without_target_not_empty n target H2)
      as control Hc E.
    apply in_without in Hc. destruct Hc as [Hc Hne']. apply in_seq in Hc.
    set (s3 := MkState (advance (rng s2)) (qcircuit s2)).
    choose (without (seq 0 n) [target; control]) s3
      (@without_two_not_empty n target control Hfit) as control2 Hc2 E.
    apply in_without in Hc2. destruct Hc2 as [Hc2 Hne2]. apply in_seq in Hc2.
    eexists; eexists; split; [reflexivity|]; split; [reflexivity|].
    unfold well_placed; simpl. simpl in Hne', Hne2.
    repeat split; [repeat constructor; lia | intuition lia |].
    repeat constructor; simpl; intuition lia.
  - (* U *) eexists; eexists; split; [reflexivity|]; split; [reflexivity|]; apply Hone.
  - (* X *) eexists; eexists; split; [reflexivity|]; split; [reflexivity|]; apply Hone.
  - (* Y *) eexists; eexists; split; [reflexivity|]; split; [reflexivity|]; apply Hone.
  - (* Z *) eexists; eexists; split; [reflexivity|]; split; [reflexivity|]; apply Hone.
Qed.

(** *** The loop *)

Lemma draw_gates_ok (gate_classes : list NativeGate) (n nb_gates : nat) :
  gate_classes <> [] ->
  Forall (fun gate => arity gate <= n) gate_classes ->
  Forall (fun gate => supported gate = true) gate_classes ->
  forall s, exists gates s',
    draw_gates nb_gates gate_classes (seq 0 n) s = (Ok tt, s') /\
    qcircuit s' =
      MkQCircuit (nb_qubits (qcircuit s))
                 (instructions (qcircuit s) ++ map IGate gates) /\
    List.length gates = nb_gates /\
    Forall (well_placed n) gates.
Proof.
  intros Hne Hfit Hsup. induction nb_gates as [|k IH]; intro s.
  - exists [], s. simpl. rewrite app_nil_r. destruct s as [g [q i]].
    repeat split. constructor.
  - destruct (draw_gate_ok s Hne Hfit Hsup) as (gate & s1 & E1 & Hq1 & Hw1).
    destruct (IH s1) as (gates & s2 & E2 & Hq2 & Hlen & Hw2).
    exists (gate :: gates), s2. simpl draw_gates.
    rewrite (@bind_ok _ _ _ _ _ _ _ E1). rewrite E2.
    repeat split.
    + rewrite Hq2, Hq1. simpl. now rewrite <- app_assoc.
    + simpl. now rewrite Hlen.
    + now constructor.
Qed.

(** On the classes whose branch is sound, [random_circuit] does what the
    spec asks: for a non-empty set of classes that fit in the qubit count it
    returns a circuit of exactly [nb_gates] gates, each with its qubits in
    range and distinct. *)
Lemma random_circuit_supported (gate_classes : list NativeGate)
    (n nb_gates : nat) (seed : option Seed) :
  gate_classes <> [] ->
  Forall (fun gate => arity gate <= n) gate_classes ->
  Forall (fun gate => supported gate = true) gate_classes ->
  exists gates,
    fst (random_circuit (Some gate_classes) n (Some nb_gates) seed)
      = Ok (MkQCircuit n (map IGate gates)) /\
    List.length gates = nb_gates /\
    Forall (well_placed n) gates.
Proof.
  intros Hne Hfit Hsup. unfold random_circuit, effective_gate_classes.
  set (s0 := MkState (initial_rng seed) (MkQCircuit n [])).
  unfold bind at 1. unfold ret at 1.
  assert (Hcheck : existsb (too_few_qubits n) gate_classes = false).
  { destruct (existsb (too_few_qubits n) gate_classes) eqn:E; trivial.
    apply existsb_exists in E. destruct E as (gate & Hin & Hlow).
    rewrite Forall_forall in Hfit. specialize (Hfit _ Hin).
    unfold too_few_qubits in Hlow.
    destruct gate; simpl in Hlow, Hfit; try discriminate;
      repeat match type of Hlow with
             | context [(?a <=? ?b)%nat] => destruct (Nat.leb_spec a b)
             end; simpl in Hlow; try discriminate; lia. }
  rewrite Hcheck.
  destruct (draw_gates_ok nb_gates Hne Hfit Hsup s0) as (gates & s' & E & Hq & Hlen & Hw).
  exists gates. rewrite (@bind_ok _ _ _ _ _ _ _ E). simpl.
  rewrite Hq. simpl. auto.
Qed.

(** *** Where the loop stops *)

(** On the other classes ([Rx], [Ry], [Rz], [P] and [CRk]) a round of the
    loop reaches [TYPE_CHECKING] and raises [NameError], leaving the circuit
    as it was. *)
Lemma draw_gate_undefined_name (gate_classes : list NativeGate) (n : nat)
    (s : state) :
  gate_classes <> [] ->
  Forall (fun gate => arity gate <= n) gate_classes ->
  Forall (fun gate => supported gate = false) gate_classes ->
  exists s',
    draw_gate gate_classes (seq 0 n) s = (Raise (NameError "TYPE_CHECKING"), s') /\
    qcircuit s' = qcircuit s.
Proof.
  intros Hne Hfit Hsup. unfold draw_gate.
  choose gate_classes s Hne as gate_class Hin E.
  rewrite Forall_forall in Hfit, Hsup.
  specialize (Hfit _ Hin). specialize (Hsup _ Hin).
  set (s1 := MkState (advance (rng s)) (qcircuit s)).
  assert (Hq : seq 0 n <> []).
  { destruct n; [destruct gate_class; simpl in Hfit; lia | discriminate]. }
  choose (seq 0 n) s1 Hq as target Ht E.
  set (s2 := MkState (advance (rng s1)) (qcircuit s1)).
  destruct gate_class; try discriminate Hsup; simpl in Hfit;
    cbn [issubclass_SingleQubitGate issubclass_ParametrizedGate issubclass_U
         issubclass_Rk issubclass_RotationGate is_TOF];
    try (eexists; split; reflexivity).
  (* CRk: the control is drawn first *)
  choose (without (seq 0 n) [target]) s2 (@without_target_not_empty n target Hfit)
    as control Hc E.
  eexists; split; reflexivity.
Qed.

Lemma draw_gate_rotation_raises (n : nat) (s : state) :
  exists s',
    draw_gate [native_gates.Rx] (seq 0 (S n)) s
      = (Raise (NameError "TYPE_CHECKING"), s').
Proof.
  destruct (@draw_gate_undefined_name [native_gates.Rx] (S n) s)
    as (s' & E & _).
  - discriminate.
  - constructor; [simpl; lia | constructor].
  - constructor; [reflexivity | constructor].
  - now exists s'.
Qed.

(** With no gate class to choose from, [rng.choice] raises [ValueError] in
    the first round. *)
Lemma random_circuit_no_gate_class (n nb_gates : nat) (seed : option Seed) :
  fst (random_circuit (Some []) n (Some (S nb_gates)) seed) = Raise ValueError.
Proof. reflexivity. Qed.

(** C1, at a rotation gate.  [Rx] fits in any circuit of at least one
    qubit, yet the first round of the loop raises [NameError]: line 131
    evaluates [TYPE_CHECKING], which the module does not import. *)
Theorem random_circuit_rotation_gate_raises :
  forall (nb_qubits nb_gates : nat) (seed : option Seed),
    fst (random_circuit (Some [native_gates.Rx]) (S nb_qubits)
           (Some (S nb_gates)) seed)
      = Raise (NameError "TYPE_CHECKING").
Proof.
  intros n k seed. unfold random_circuit, effective_gate_classes.
  set (s0 := MkState (initial_rng seed) (MkQCircuit (S n) [])).
  unfold bind at 1. unfold ret at 1.
  change (existsb (too_few_qubits (S n)) [native_gates.Rx]) with false.
  cbv iota. simpl draw_gates.
  destruct (draw_gate_rotation_raises n s0) as (s' & E).
  rewrite (@bind_raise _ _ _ _ _ _ _ (@bind_raise _ _ _ _ _ _ _ E)).
  reflexivity.
Qed.

(** C3.  When some gate class of the set is not a single-qubit class and
    the circuit has at most one qubit, or the class is [TOF] and the circuit
    has at most two, [random_circuit] raises [ValueError]; the circuit then
    holds no instruction and the generator has served at most the draw of
    [nb_gates]: no gate was drawn. *)
Theorem random_circuit_too_few_qubits_raises :
  forall (gate_classes : option (list NativeGate)) (nb_qubits : nat)
         (nb_gates : option nat) (seed : option Seed) (gate : NativeGate),
    In gate (effective_gate_classes gate_classes) ->
    issubclass_SingleQubitGate gate = false ->
    nb_qubits <= 1 \/ (gate = native_gates.TOF /\ nb_qubits <= 2) ->
    let out := random_circuit gate_classes nb_qubits nb_gates seed in
    fst out = Raise ValueError /\
    qcircuit (snd out) = MkQCircuit nb_qubits [] /\
    rng (snd out) =
      match nb_gates with
      | Some _ => initial_rng seed
      | None => advance (initial_rng seed)
      end.
Proof.
  intros gate_classes n nb_gates seed gate Hin Hmulti Hlow out.
  assert (Hcheck : existsb (too_few_qubits n)
                     (effective_gate_classes gate_classes) = true).
  { apply existsb_exists. exists gate. split; [assumption|].
    unfold too_few_qubits. rewrite Hmulti. simpl.
    destruct Hlow as [H1 | [-> H2]].
    - apply Nat.leb_le in H1. rewrite H1. apply orb_true_r.
    - apply Nat.leb_le in H2. rewrite H2. reflexivity. }
  subst out. unfold random_circuit.
  destruct nb_gates as [k|]; unfold bind, ret, rng_integers, next_draw, raise;
    simpl; rewrite Hcheck; simpl; auto.
Qed.

(** *** Further facts on random_circuit *)

(** The qubits of a gate are laid out as its class asks: one target, two
    for [SWAP], and as many qubits in all as the arity of the class. *)
Definition layout_fits (gate : Gate) : Prop :=
  List.length (targets gate) = (if is_SWAP (gate_class gate) then 2 else 1) /\
  List.length (controls gate) + List.length (targets gate)
    = arity (gate_class gate).

(** The parameters of a gate are those of its class: three angles for [U],
    one integer from 1 to 9 for [Rk], none for a gate without parameter. *)
Definition parameters_fit (gate : Gate) : Prop :=
  match gate_class gate with
  | native_gates.U =>
      exists theta phi gamma,
        parameters gate = [Angle theta; Angle phi; Angle gamma]
  | native_gates.Rk =>
      exists k, parameters gate = [Level k] /\ (1 <= k < 10)%Z
  | _ => parameters gate = []
  end.

Definition well_typed (gate_classes : list NativeGate) (gate : Gate) : Prop :=
  In (gate_class gate) gate_classes /\ layout_fits gate /\ parameters_fit gate.

Lemma rng_integers_bounds (low high : Z) (s : state) :
  (low < high)%Z ->
  exists k, (low <= k < high)%Z /\
    rng_integers low high s = (Ok k, MkState (advance (rng s)) (qcircuit s)).
Proof.
  intro H. eexists. split; [|reflexivity].
  pose proof (Z.mod_pos_bound (Z.of_nat (draws (rng s) (position (rng s))))
                (high - low)). lia.
Qed.

Ltac placed_and_typed Hin :=
  split;
  [ unfold well_placed; simpl;
    repeat split;
    [ repeat constructor; lia | intuition lia | repeat constructor; simpl; intuition lia ]
  | unfold well_typed, layout_fits, parameters_fit; simpl;
    repeat split; try exact Hin; try reflexivity ].

Lemma draw_gate_sound (gate_classes : list NativeGate) (n : nat) (s : state) :
  gate_classes <> [] ->
  Forall (fun gate => arity gate <= n) gate_classes ->
  Forall (fun gate => supported gate = true) gate_classes ->
  exists gate s',
    draw_gate gate_classes (seq 0 n) s = (Ok tt, s') /\
    qcircuit s' = add (IGate gate) (qcircuit s) /\
    well_placed n gate /\ well_typed gate_classes gate.
Proof.
  intros Hne Hfit Hsup. unfold draw_gate.
  choose gate_classes s Hne as gate_class Hin E.
  rewrite Forall_forall in Hfit, Hsup.
  specialize (Hfit _ Hin). specialize (Hsup _ Hin).
  set (s1 := MkState (advance (rng s)) (qcircuit s)).
  assert (Hq : seq 0 n <> []).
  { destruct n; [destruct gate_class; simpl in Hfit; lia | discriminate]. }
  choose (seq 0 n) s1 Hq as target Ht E.
  apply in_seq in Ht.
  set (s2 := MkState (advance (rng s1)) (qcircuit s1)).
  destruct gate_class; try discriminate Hsup; simpl in Hfit;
    cbn [issubclass_SingleQubitGate issubclass_ParametrizedGate issubclass_U
         issubclass_Rk issubclass_RotationGate is_TOF];
    try (eexists; eexists; split; [reflexivity|]; split; [reflexivity|];
         placed_and_typed Hin; fail).
  - (* CNOT *)
    choose (without (seq 0 n) [target]) s2 (@without_target_not_empty n target Hfit)
      as control Hc E.
    apply in_without in Hc. destruct Hc as [Hc Hne']. apply in_seq in Hc.
    simpl in Hne'.
    eexists; eexists; split; [reflexivity|]; split; [reflexivity|].
    placed_and_typed Hin.
  - (* CZ *)
    choose (without (seq 0 n) [target]) s2 (@without_target_not_empty n target Hfit)
      as control Hc E.
    apply in_without in Hc. destruct Hc as [Hc Hne']. apply in_seq in Hc.
    simpl in Hne'.
    eexists; eexists; split; [reflexivity|]; split; [reflexivity|].
    placed_and_typed Hin.
  - (* Rk *)
    destruct (@rng_integers_bounds 1 10 s2 eq_refl) as (k & Hk & E).
    rewrite (@bind_ok _ _ _ _ _ _ _ E).
    eexists; eexists; split; [reflexivity|]; split; [reflexivity|].
    placed_and_typed Hin. exists k. split; [reflexivity | exact Hk].
  - (* SWAP *)
    choose (without (seq 0 n) [target]) s2 (@without_target_not_empty n target Hfit)
      as control Hc E.
    apply in_without in Hc. destruct Hc as [Hc Hne']. apply in_seq in Hc.
    simpl in Hne'.
    eexists; eexists; split; [reflexivity|]; split; [reflexivity|].
    placed_and_typed Hin.
  - (* TOF *)
    assert (H2 : 2 <= n) by lia.
    choose (without (seq 0 n) [target]) s2 (@without_target_not_empty n target H2)
      as control Hc E.
    apply in_without in Hc. destruct Hc as [Hc Hne']. apply in_seq in Hc.
    set (s3 := MkState (advance (rng s2)) (qcircuit s2)).
    choose (without (seq 0 n) [target; control]) s3
      (@without_two_not_empty n target control Hfit) as control2 Hc2 E.
    apply in_without in Hc2. destruct Hc2 as [Hc2 Hne2]. apply in_seq in Hc2.
    simpl in Hne', Hne2.
    eexists; eexists; split; [reflexivity|]; split; [reflexivity|].
    placed_and_typed Hin.
  - (* U *)
    eexists; eexists; split; [reflexivity|]; split; [reflexivity|].
    placed_and_typed Hin. repeat eexists.
Qed.

Lemma draw_gates_sound (gate_classes : list NativeGate) (n nb_gates : nat) :
  gate_classes <> [] ->
  Forall (fun gate => arity gate <= n) gate_classes ->
  Forall (fun gate => supported gate = true) gate_classes ->
  forall s, exists gates s',
    draw_gates nb_gates gate_classes (seq 0 n) s = (Ok tt, s') /\
    qcircuit s' =
      MkQCircuit (nb_qubits (qcircuit s))
                 (instructions (qcircuit s) ++ map IGate gates) /\
    List.length gates = nb_gates /\
    Forall (well_placed n) gates /\
    Forall (well_typed gate_classes) gates.
Proof.
  intros Hne Hfit Hsup. induction nb_gates as [|k IH]; intro s.
  - exists [], s. simpl. rewrite app_nil_r. destruct s as [g [q i]].
    repeat split; constructor.
  - destruct (draw_gate_sound s Hne Hfit Hsup)
      as (gate & s1 & E1 & Hq1 & Hw1 & Ht1).
    destruct (IH s1) as (gates & s2 & E2 & Hq2 & Hlen & Hw2 & Ht2).
    exists (gate :: gates), s2. simpl draw_gates.
    rewrite (@bind_ok _ _ _ _ _ _ _ E1). rewrite E2.
    repeat split.
    + rewrite Hq2, Hq1. simpl. now rewrite <- app_assoc.
    + simpl. now rewrite Hlen.
    + now constructor.
    + now constructor.
Qed.

Lemma validation_passes (gate_classes : list NativeGate) (n : nat) :
  Forall (fun gate => arity gate <= n) gate_classes ->
  existsb (too_few_qubits n) gate_classes = false.
Proof.
  intro Hfit.
  destruct (existsb (too_few_qubits n) gate_classes) eqn:E; trivial.
  apply existsb_exists in E. destruct E as (gate & Hin & Hlow).
  rewrite Forall_forall in Hfit. specialize (Hfit _ Hin).
  unfold too_few_qubits in Hlow.
  destruct gate; simpl in Hlow, Hfit; try discriminate;
    repeat match type of Hlow with
           | context [(?a <=? ?b)%nat] => destruct (Nat.leb_spec a b)
           end; simpl in Hlow; try discriminate; lia.
Qed.

(** The number of rounds of the loop: [nb_gates], or the draw of line 102. *)
Definition requested_gates (nb_gates : option nat) (seed : option Seed) : nat :=
  match nb_gates with
  | Some k => k
  | None =>
      let g := initial_rng seed in
      Z.to_nat (5 + Z.of_nat (draws g (position g)) mod (10 - 5))
  end.

Lemma random_circuit_sound (gate_classes : list NativeGate) (n : nat)
    (nb_gates : option nat) (seed : option Seed) :
  gate_classes <> [] ->
  Forall (fun gate => arity gate <= n) gate_classes ->
  Forall (fun gate => supported gate = true) gate_classes ->
  exists gates,
    fst (random_circuit (Some gate_classes) n nb_gates seed)
      = Ok (MkQCircuit n (map IGate gates)) /\
    List.length gates = requested_gates nb_gates seed /\
    Forall (well_placed n) gates /\
    Forall (well_typed gate_classes) gates.
Proof.
  intros Hne Hfit Hsup. unfold random_circuit, effective_gate_classes.
  set (s0 := MkState (initial_rng seed) (MkQCircuit n [])).
  destruct nb_gates as [k|].
  - unfold bind at 1. unfold ret at 1.
    rewrite (validation_passes Hfit).
    destruct (draw_gates_sound k Hne Hfit Hsup s0)
      as (gates & s' & E & Hq & Hlen & Hw & Ht).
    exists gates. rewrite (@bind_ok _ _ _ _ _ _ _ E). simpl.
    rewrite Hq. simpl. auto.
  - unfold bind at 1. unfold bind at 1. unfold rng_integers at 1.
    unfold bind at 1. unfold next_draw, ret.
    rewrite (validation_passes Hfit).
    set (s1 := MkState (advance (rng s0)) (qcircuit s0)).
    destruct (draw_gates_sound (requested_gates None seed) Hne Hfit Hsup s1)
      as (gates & s' & E & Hq & Hlen & Hw & Ht).
    exists gates. unfold requested_gates in E. simpl in E.
    rewrite (@bind_ok _ _ _ _ _ _ _ E). simpl.
    rewrite Hq. simpl. auto.
Qed.

(** When [nb_gates] is not given, the circuit has from five to nine
    gates. *)
Theorem random_circuit_default_gate_count (gate_classes : list NativeGate)
    (n : nat) (seed : option Seed) :
  gate_classes <> [] ->
  Forall (fun gate => arity gate <= n) gate_classes ->
  Forall (fun gate => supported gate = true) gate_classes ->
  exists qc,
    fst (random_circuit (Some gate_classes) n None seed) = Ok qc /\
    nb_qubits qc = n /\
    5 <= List.length (instructions qc) <= 9.
Proof.
  intros Hne Hfit Hsup.
  destruct (@random_circuit_sound gate_classes n None seed Hne Hfit Hsup)
    as (gates & E & Hlen & _).
  exists (MkQCircuit n (map IGate gates)). split; [exact E|].
  split; [reflexivity|]. simpl. rewrite length_map, Hlen.
  unfold requested_gates.
  pose proof (Z.mod_pos_bound
                (Z.of_nat (draws (initial_rng seed) (position (initial_rng seed))))
                (10 - 5)). lia.
Qed.

(** Every gate of the circuit has a class of the candidate set, the
    qubits its class asks for and the parameters of its class. *)
Theorem random_circuit_gates_typed (gate_classes : list NativeGate)
    (n : nat) (nb_gates : option nat) (seed : option Seed) :
  gate_classes <> [] ->
  Forall (fun gate => arity gate <= n) gate_classes ->
  Forall (fun gate => supported gate = true) gate_classes ->
  exists gates,
    fst (random_circuit (Some gate_classes) n nb_gates seed)
      = Ok (MkQCircuit n (map IGate gates)) /\
    Forall (well_typed gate_classes) gates.
Proof.
  intros Hne Hfit Hsup.
  destruct (@random_circuit_sound gate_classes n nb_gates seed Hne Hfit Hsup)
    as (gates & E & _ & _ & Ht).
  now exists gates.
Qed.

Lemma too_few_qubits_arity (n : nat) (gate : NativeGate) :
  too_few_qubits n gate
  = negb (issubclass_SingleQubitGate gate || (arity gate <=? n)%nat).
Proof.
  unfold too_few_qubits.
  destruct gate;
    cbn [issubclass_SingleQubitGate is_TOF arity negb andb orb];
    try reflexivity;
    repeat match goal with
           | |- context [(?a <=? ?b)%nat] => destruct (Nat.leb_spec a b)
           end; cbn [negb andb orb]; try reflexivity; exfalso; lia.
Qed.

Lemma validation_forallb (n : nat) (gate_classes : list NativeGate) :
  existsb (too_few_qubits n) gate_classes
  = negb (forallb (fun gate => issubclass_SingleQubitGate gate
                               || (arity gate <=? n)%nat) gate_classes).
Proof.
  induction gate_classes as [|gate l IH]; [reflexivity|].
  cbn [existsb forallb]. rewrite IH, too_few_qubits_arity.
  now destruct (issubclass_SingleQubitGate gate || (arity gate <=? n)%nat).
Qed.

(** With no gate to draw, the call only validates: it returns the empty
    circuit when every class on several qubits fits in the circuit, and
    raises [ValueError] otherwise.  The single-qubit classes are never
    refused, not even on a circuit without qubit. *)
Theorem random_circuit_no_gate (gate_classes : option (list NativeGate))
    (n : nat) (seed : option Seed) :
  fst (random_circuit gate_classes n (Some 0) seed) =
    if forallb (fun gate => issubclass_SingleQubitGate gate
                            || (arity gate <=? n)%nat)
               (effective_gate_classes gate_classes)
    then Ok (MkQCircuit n [])
    else Raise ValueError.
Proof.
  unfold random_circuit. unfold bind at 1. unfold ret at 1.
  rewrite validation_forallb.
  destruct (forallb _ _); reflexivity.
Qed.

(** On a circuit without qubit the single-qubit classes pass the
    validation, and the first round fails when it draws the target:
    [ValueError] from [rng.choice] on the empty list of qubits, after the
    draw of the gate class, the circuit being empty. *)
Theorem random_circuit_no_qubit (gate_classes : list NativeGate)
    (nb_gates : nat) (seed : option Seed) :
  gate_classes <> [] ->
  Forall (fun gate => issubclass_SingleQubitGate gate = true) gate_classes ->
  let out := random_circuit (Some gate_classes) 0 (Some (S nb_gates)) seed in
  fst out = Raise ValueError /\
  qcircuit (snd out) = MkQCircuit 0 [] /\
  rng (snd out) = advance (initial_rng seed).
Proof.
  intros Hne Hsingle out.
  assert (Hcheck : existsb (too_few_qubits 0) gate_classes = false).
  { destruct (existsb (too_few_qubits 0) gate_classes) eqn:E; trivial.
    apply existsb_exists in E. destruct E as (gate & Hin & Hlow).
    rewrite Forall_forall in Hsingle. specialize (Hsingle _ Hin).
    unfold too_few_qubits in Hlow. rewrite Hsingle in Hlow. discriminate. }
  assert (Hout : out = (Raise ValueError,
                        MkState (advance (initial_rng seed)) (MkQCircuit 0 []))).
  { subst out. unfold random_circuit, effective_gate_classes.
    set (s0 := MkState (initial_rng seed) (MkQCircuit 0 [])).
    unfold bind at 1. unfold ret at 1. rewrite Hcheck. simpl draw_gates.
    assert (E : draw_gate gate_classes (seq 0 0) s0
                = (Raise ValueError, MkState (advance (rng s0)) (qcircuit s0))).
    { unfold draw_gate.
      choose gate_classes s0 Hne as gate_class Hin E. reflexivity. }
    rewrite (@bind_raise _ _ _ _ _ _ _ (@bind_raise _ _ _ _ _ _ _ E)).
    reflexivity. }
  rewrite Hout. simpl. auto.
Qed.

End RandomCircuit.

(** A generator and a [default_rng] to run the model on concrete inputs. *)
Definition counting_generator (start : nat) : Generator :=
  MkGenerator (fun i => start + i) 0.

Definition counting_rng (seed : option Z) : Generator :=
  match seed with
  | Some n => counting_generator (Z.to_nat n)
  | None => counting_generator 0
  end.

(** An instance of C3: a [TOF] on two qubits. *)
Lemma random_circuit_too_few_qubits_raises_witness :
  let out := random_circuit counting_rng
               (Some [native_gates.H; native_gates.TOF]) 2 (Some 3) None in
  fst out = Raise ValueError /\
  qcircuit (snd out) = MkQCircuit 2 [] /\
  rng (snd out) = counting_generator 0.
Proof.
  apply (@random_circuit_too_few_qubits_raises counting_rng
           (Some [native_gates.H; native_gates.TOF]) 2 (Some 3) None
           native_gates.TOF).
  - simpl. auto.
  - reflexivity.
  - right. split; [reflexivity | lia].
Defined.

(** Instances of the facts above. *)
Lemma random_circuit_supported_witness :
  exists gates,
    fst (random_circuit counting_rng
           (Some [native_gates.X; native_gates.CZ; native_gates.TOF]) 3
           (Some 6) (Some (SeedInt 42)))
      = Ok (MkQCircuit 3 (map IGate gates)) /\
    List.length gates = 6 /\
    Forall (well_placed 3) gates.
Proof.
  apply (@random_circuit_supported counting_rng
           [native_gates.X; native_gates.CZ; native_gates.TOF] 3 6
           (Some (SeedInt 42))).
  - discriminate.
  - repeat (constructor; [simpl; lia|]); constructor.
  - repeat (constructor; [reflexivity|]); constructor.
Defined.

Lemma random_circuit_default_gate_count_witness :
  exists qc,
    fst (random_circuit counting_rng
           (Some [native_gates.H; native_gates.CNOT; native_gates.U]) 2 None None)
      = Ok qc /\
    nb_qubits qc = 2 /\
    5 <= List.length (instructions qc) <= 9.
Proof.
  apply (@random_circuit_default_gate_count counting_rng
           [native_gates.H; native_gates.CNOT; native_gates.U] 2 None).
  - discriminate.
  - repeat (constructor; [simpl; lia|]); constructor.
  - repeat (constructor; [reflexivity|]); constructor.
Defined.

Lemma random_circuit_gates_typed_witness :
  exists gates,
    fst (random_circuit counting_rng
           (Some [native_gates.Rk; native_gates.TOF; native_gates.SWAP]) 3
           (Some 4) None)
      = Ok (MkQCircuit 3 (map IGate gates)) /\
    Forall (well_typed [native_gates.Rk; native_gates.TOF; native_gates.SWAP])
           gates.
Proof.
  apply (@random_circuit_gates_typed counting_rng
           [native_gates.Rk; native_gates.TOF; native_gates.SWAP] 3 (Some 4) None).
  - discriminate.
  - repeat (constructor; [simpl; lia|]); constructor.
  - repeat (constructor; [reflexivity|]); constructor.
Defined.

Lemma random_circuit_no_qubit_witness :
  let out := random_circuit counting_rng
               (Some [native_gates.H; native_gates.X]) 0 (Some 2) None in
  fst out = Raise ValueError /\
  qcircuit (snd out) = MkQCircuit 0 [] /\
  rng (snd out) = advance (counting_generator 0).
Proof.
  apply (@random_circuit_no_qubit counting_rng
           [native_gates.H; native_gates.X] 1 None).
  - discriminate.
  - repeat (constructor; [reflexivity|]); constructor.
Defined.

(** *** compute_expected_matrix *)

(** [isinstance(instruction, Gate)]. *)
Definition is_gate (instruction : Instruction) : bool :=
  match instruction with
  | IGate _ => true
  | INonGate _ _ => false
  end.

(** The list comprehension of lines 171-175. *)
Definition gates_of (qcircuit : QCircuit) : list Gate :=
  flat_map (fun instruction =>
              match instruction with
              | IGate gate => [gate]
              | INonGate _ _ => []
              end) (instructions qcircuit).

Section ExpectedMatrix.

(** The scalars of numpy's complex matrices with their arithmetic; no law
    is assumed on them.  [N] is [sympy.N] on an entry and [to_matrix] is
    [gate.to_matrix()]. *)
Variable C : Type.
Variables zero one : C.
Variables cadd cmul : C -> C -> C.
Variable N : C -> C.
Variable to_matrix : Gate -> list (list C).

(** A two-dimensional array, as the list of its rows. *)
Definition matrix : Type := list (list C).

Definition nb_rows (m : matrix) : nat := List.length m.
Definition nb_cols (m : matrix) : nat := List.length (hd [] m).

(** [np.eye(n)]. *)
Definition np_eye (n : nat) : matrix :=
  map (fun i => map (fun j => if (i =? j)%nat then one else zero) (seq 0 n))
      (seq 0 n).

(** [np.kron(a, b)]. *)
Definition np_kron (a b : matrix) : matrix :=
  flat_map (fun row_a =>
              map (fun row_b => flat_map (fun x => map (cmul x) row_b) row_a) b)
           a.

Definition column (j : nat) (m : matrix) : list C :=
  map (fun row => nth j row zero) m.

Definition vdot (u v : list C) : C :=
  fold_right cadd zero (map (fun p => cmul (fst p) (snd p)) (combine u v)).

(** The product of two matrices. *)
Definition matmul (a b : matrix) : matrix :=
  map (fun row => map (fun j => vdot row (column j b)) (seq 0 (nb_cols b))) a.

(** [np.dot(a, b)]: [ValueError] when the shapes are not aligned. *)
Definition np_dot (a b : matrix) : result matrix :=
  if (nb_cols a =? nb_rows b)%nat then Ok (matmul a b) else Raise ValueError.

(** [np.vectorize(N)(m).astype(complex)]. *)
Definition vectorize_N (m : matrix) : matrix := map (map N) m.

(** Lines 188-191: the matrix of a gate on qubit [index], at the width of
    the circuit. *)
Definition expand (nb_qubits : nat) (gate : Gate) (index : nat) : matrix :=
  np_kron (np_eye (2 ^ index))
          (np_kron (to_matrix gate) (np_eye (2 ^ (nb_qubits - index - 1)))).

(** The loop of lines 180-193 over the gates it is given.  [targets[0]] of
    an empty list raises [IndexError]; for [index >= nb_qubits] the exponent
    [nb_qubits - index - 1] is negative, the power is a float and [np.eye]
    raises [TypeError]. *)
Fixpoint multiply_gates (nb_qubits : nat) (gates : list Gate)
    (result_matrix : matrix) : result matrix :=
  match gates with
  | [] => Ok result_matrix
  | gate :: rest =>
      if negb (isinstance_SingleQubitGate gate) then Raise ValueError
      else
        match targets gate with
        | [] => Raise IndexError
        | index :: _ =>
            if (nb_qubits <=? index)%nat then Raise TypeError
            else
              match np_dot result_matrix (expand nb_qubits gate index) with
              | Raise e => Raise e
              | Ok result_matrix => multiply_gates nb_qubits rest result_matrix
              end
        end
  end.

(** circuit.py, lines 153-195. *)
Definition compute_expected_matrix (qcircuit : QCircuit) : result matrix :=
  let gates := gates_of qcircuit in
  let nb_qubits := nb_qubits qcircuit in
  let result_matrix := np_eye (2 ^ nb_qubits) in
  match multiply_gates nb_qubits (rev gates) result_matrix with
  | Raise e => Raise e
  | Ok result_matrix => Ok (vectorize_N result_matrix)
  end.

(** The spec's wording: the product, in reverse instruction order, of the
    expanded matrices; the first instruction is the rightmost factor. *)
Fixpoint reversed_product (nb_qubits : nat) (gates : list Gate) : matrix :=
  match gates with
  | [] => np_eye (2 ^ nb_qubits)
  | gate :: rest =>
      matmul (reversed_product nb_qubits rest)
             (expand nb_qubits gate (hd O (targets gate)))
  end.

(** *** Shapes *)

Definition has_shape (r c : nat) (m : matrix) : Prop :=
  List.length m = r /\ Forall (fun row => List.length row = c) m.

(** What a circuit of [n] qubits guarantees of a single-qubit gate: a
    target in range and a 2 x 2 matrix. *)
Definition placed_on (n : nat) (gate : Gate) : Prop :=
  (exists index, hd_error (targets gate) = Some index /\ index < n) /\
  has_shape 2 2 (to_matrix gate).

Definition well_formed (qcircuit : QCircuit) : Prop :=
  Forall (fun gate => isinstance_SingleQubitGate gate = true ->
                      placed_on (nb_qubits qcircuit) gate)
         (gates_of qcircuit).

Lemma np_eye_shape (n : nat) : has_shape n n (np_eye n).
Proof.
  unfold has_shape, np_eye. split.
  - now rewrite length_map, length_seq.
  - apply Forall_forall. intros row Hrow. apply in_map_iff in Hrow.
    destruct Hrow as (i & <- & _). now rewrite length_map, length_seq.
Qed.

Lemma np_kron_shape (ra ca rb cb : nat) (a b : matrix) :
  has_shape ra ca a -> has_shape rb cb b ->
  has_shape (ra * rb) (ca * cb) (np_kron a b).
Proof.
  intros [Hra Hca] [Hrb Hcb]. unfold has_shape, np_kron. split.
  - rewrite (@flat_map_constant_length _ _ rb).
    + now rewrite Hra.
    + intros row _. now rewrite length_map.
  - rewrite Forall_forall in *. intros row Hrow.
    apply in_flat_map in Hrow. destruct Hrow as (row_a & Ha & Hrow).
    apply in_map_iff in Hrow. destruct Hrow as (row_b & <- & Hb).
    rewrite (@flat_map_constant_length _ _ cb).
    + now rewrite (Hca _ Ha).
    + intros x _. rewrite length_map. now apply Hcb.
Qed.

Lemma nb_cols_shape (r c : nat) (m : matrix) :
  0 < r -> has_shape r c m -> nb_cols m = c.
Proof.
  intros Hr [Hlen Hrows]. unfold nb_cols.
  destruct m as [|row m']; simpl in *; [lia|]. now inversion Hrows.
Qed.

Lemma matmul_shape (r k c : nat) (a b : matrix) :
  0 < k -> List.length a = r -> has_shape k c b -> has_shape r c (matmul a b).
Proof.
  intros Hk Ha Hb. unfold has_shape, matmul. split.
  - now rewrite length_map.
  - apply Forall_forall. intros row Hrow. apply in_map_iff in Hrow.
    destruct Hrow as (row_a & <- & _).
    rewrite length_map, length_seq. exact (nb_cols_shape Hk Hb).
Qed.

Lemma pow2_pos (n : nat) : 0 < 2 ^ n.
Proof. pose proof (Nat.pow_nonzero 2 n). lia. Qed.

Lemma expand_shape (n index : nat) (gate : Gate) :
  index < n -> has_shape 2 2 (to_matrix gate) ->
  has_shape (2 ^ n) (2 ^ n) (expand n gate index).
Proof.
  intros Hi Hg. unfold expand.
  assert (E : 2 ^ n = 2 ^ index * (2 * 2 ^ (n - index - 1))).
  { rewrite <- Nat.pow_succ_r', <- Nat.pow_add_r. f_equal. lia. }
  rewrite E. apply np_kron_shape; [apply np_eye_shape|].
  apply np_kron_shape; [exact Hg | apply np_eye_shape].
Qed.

(** *** The loop on well-formed single-qubit gates *)

(** One round of the loop, as a function. *)
Definition round (nb_qubits : nat) (result_matrix : matrix) (gate : Gate) : matrix :=
  matmul result_matrix (expand nb_qubits gate (hd O (targets gate))).

Lemma np_dot_aligned (n : nat) (a b : matrix) :
  has_shape (2 ^ n) (2 ^ n) a -> has_shape (2 ^ n) (2 ^ n) b ->
  np_dot a b = Ok (matmul a b) /\ has_shape (2 ^ n) (2 ^ n) (matmul a b).
Proof.
  intros Ha Hb. unfold np_dot, nb_rows.
  rewrite (nb_cols_shape (pow2_pos n) Ha), (proj1 Hb), Nat.eqb_refl.
  split; [reflexivity|].
  exact (matmul_shape a (pow2_pos n) (proj1 Ha) Hb).
Qed.

Lemma multiply_gates_single (n : nat) (gates : list Gate) :
  Forall (fun gate => isinstance_SingleQubitGate gate = true) gates ->
  Forall (placed_on n) gates ->
  forall result_matrix,
    has_shape (2 ^ n) (2 ^ n) result_matrix ->
    multiply_gates n gates result_matrix
      = Ok (fold_left (round n) gates result_matrix) /\
    has_shape (2 ^ n) (2 ^ n) (fold_left (round n) gates result_matrix).
Proof.
  induction gates as [|gate rest IH]; intros Hsingle Hplaced acc Hacc.
  - simpl. auto.
  - inversion Hsingle as [|? ? Hs Hsingle']; subst.
    inversion Hplaced as [|? ? [(index & Hhd & Hlt) Hm] Hplaced']; subst.
    simpl multiply_gates. rewrite Hs. simpl negb. cbv iota.
    destruct (targets gate) as [|index' tl] eqn:Et; [discriminate|].
    simpl in Hhd. inversion Hhd; subst index'.
    destruct (Nat.leb_spec n index) as [Hge|_]; [lia|].
    destruct (@np_dot_aligned n _ _ Hacc (@expand_shape n index gate Hlt Hm))
      as [Edot Hshape].
    rewrite Edot. simpl fold_left. unfold round at 2 4. rewrite Et. simpl hd.
    now apply IH.
Qed.

(** The left-to-right run over the reversed gates is the product in
    reverse instruction order. *)
Lemma fold_left_rev_product (n : nat) (gates : list Gate) :
  fold_left (round n) (rev gates) (np_eye (2 ^ n)) = reversed_product n gates.
Proof.
  induction gates as [|gate rest IH]; [reflexivity|].
  simpl rev. rewrite fold_left_app. simpl. now rewrite IH.
Qed.

Lemma vectorize_N_exact (m : matrix) : (forall c, N c = c) -> vectorize_N m = m.
Proof.
  intro HN. unfold vectorize_N.
  rewrite (map_ext _ (fun row => row)); [apply map_id|].
  intro row. rewrite (map_ext _ (fun c => c)); [apply map_id | exact HN].
Qed.

Lemma vectorize_N_eye (n : nat) :
  N zero = zero -> N one = one -> vectorize_N (np_eye n) = np_eye n.
Proof.
  intros H0 H1. unfold vectorize_N, np_eye.
  rewrite map_map. apply map_ext. intro i.
  rewrite map_map. apply map_ext. intro j.
  now destruct (i =? j)%nat.
Qed.

(** A gate that is not a single-qubit gate stops the loop with
    [ValueError], whatever well-formed single-qubit gates come before it. *)
Lemma multiply_gates_unsupported (n : nat) (gates : list Gate) :
  Exists (fun gate => isinstance_SingleQubitGate gate = false) gates ->
  Forall (fun gate => isinstance_SingleQubitGate gate = true -> placed_on n gate)
         gates ->
  forall result_matrix,
    has_shape (2 ^ n) (2 ^ n) result_matrix ->
    multiply_gates n gates result_matrix = Raise ValueError.
Proof.
  induction gates as [|gate rest IH]; intros Hex Hwf acc Hacc.
  - inversion Hex.
  - simpl multiply_gates.
    inversion Hwf as [|? ? Hg Hwf']; subst.
    destruct (isinstance_SingleQubitGate gate) eqn:Hs; [|reflexivity].
    simpl negb. cbv iota.
    destruct (Hg eq_refl) as [(index & Hhd & Hlt) Hm].
    destruct (targets gate) as [|index' tl] eqn:Et; [discriminate|].
    simpl in Hhd. inversion Hhd; subst index'.
    destruct (Nat.leb_spec n index) as [Hge|_]; [lia|].
    destruct (@np_dot_aligned n _ _ Hacc (@expand_shape n index gate Hlt Hm))
      as [Edot Hshape].
    rewrite Edot. apply IH; trivial.
    inversion Hex as [? ? Hhere | ? ? Hlater]; subst; [congruence | assumption].
Qed.

Lemma gates_of_app (n : nat) (before after : list Instruction) :
  gates_of (MkQCircuit n (before ++ after))
    = gates_of (MkQCircuit n before) ++ gates_of (MkQCircuit n after).
Proof. unfold gates_of; simpl. apply flat_map_app. Qed.

Lemma gates_of_no_gate (qcircuit : QCircuit) :
  Forall (fun instruction => is_gate instruction = false)
         (instructions qcircuit) ->
  gates_of qcircuit = [].
Proof.
  unfold gates_of. induction (instructions qcircuit) as [|i l IH]; intro H.
  - reflexivity.
  - inversion H as [|? ? Hi Hl]; subst.
    destruct i; [discriminate|]. simpl. now apply IH.
Qed.

(** C2.  On a circuit all of whose gates are single-qubit gates (each with
    its target in range and a 2 x 2 matrix), [compute_expected_matrix]
    returns the product, in reverse instruction order, of the gates'
    matrices expanded as [I_(2^t) (x) G (x) I_(2^(n-t-1))], and this matrix
    has [2^n] rows of [2^n] entries.  [sympy.N] is taken to leave a numeric
    entry as it is. *)
Theorem compute_expected_matrix_single_qubit_gates (qcircuit : QCircuit) :
  (forall c, N c = c) ->
  well_formed qcircuit ->
  Forall (fun gate => isinstance_SingleQubitGate gate = true)
         (gates_of qcircuit) ->
  compute_expected_matrix qcircuit
    = Ok (reversed_product (nb_qubits qcircuit) (gates_of qcircuit)) /\
  has_shape (2 ^ nb_qubits qcircuit) (2 ^ nb_qubits qcircuit)
            (reversed_product (nb_qubits qcircuit) (gates_of qcircuit)).
Proof.
  intros HN Hwf Hsingle. unfold compute_expected_matrix.
  set (n := nb_qubits qcircuit). set (gates := gates_of qcircuit).
  assert (Hplaced : Forall (placed_on n) gates).
  { unfold well_formed in Hwf. fold n gates in Hwf.
    rewrite Forall_forall in *. intros g Hg. apply Hwf; auto. }
  destruct (@multiply_gates_single n (rev gates)
              (Forall_rev Hsingle) (Forall_rev Hplaced)
              (np_eye (2 ^ n)) (np_eye_shape (2 ^ n))) as [E Hshape].
  rewrite E, fold_left_rev_product in *.
  now rewrite (vectorize_N_exact _ HN).
Qed.

(** C4.  On a well-formed circuit, [compute_expected_matrix] raises
    [ValueError] as soon as one gate is not a single-qubit gate, and returns
    a matrix when every gate is a single-qubit gate. *)
Theorem compute_expected_matrix_raises_iff_unsupported (qcircuit : QCircuit) :
  well_formed qcircuit ->
  (Exists (fun gate => isinstance_SingleQubitGate gate = false)
          (gates_of qcircuit) ->
   compute_expected_matrix qcircuit = Raise ValueError) /\
  (Forall (fun gate => isinstance_SingleQubitGate gate = true)
          (gates_of qcircuit) ->
   exists m, compute_expected_matrix qcircuit = Ok m).
Proof.
  intro Hwf. unfold compute_expected_matrix.
  set (n := nb_qubits qcircuit). set (gates := gates_of qcircuit).
  unfold well_formed in Hwf. fold n gates in Hwf. split.
  - intro Hex.
    now rewrite (@multiply_gates_unsupported n (rev gates)
                   (Exists_rev Hex) (Forall_rev Hwf)
                   (np_eye (2 ^ n)) (np_eye_shape (2 ^ n))).
  - intro Hsingle.
    assert (Hplaced : Forall (placed_on n) gates).
    { rewrite Forall_forall in *. intros g Hg. apply Hwf; auto. }
    destruct (@multiply_gates_single n (rev gates)
                (Forall_rev Hsingle) (Forall_rev Hplaced)
                (np_eye (2 ^ n)) (np_eye_shape (2 ^ n))) as [E _].
    rewrite E. eexists. reflexivity.
Qed.

(** C10.  An instruction that is not a gate can be taken out of the circuit
    without changing what [compute_expected_matrix] does; and on a circuit
    of [n] qubits without any gate the result is the identity of size
    [2^n]. *)
Theorem compute_expected_matrix_ignores_non_gates :
  (forall n before after label qubits,
      compute_expected_matrix
        (MkQCircuit n (before ++ INonGate label qubits :: after))
      = compute_expected_matrix (MkQCircuit n (before ++ after))) /\
  (N zero = zero -> N one = one ->
   forall qcircuit,
     Forall (fun instruction => is_gate instruction = false)
            (instructions qcircuit) ->
     compute_expected_matrix qcircuit = Ok (np_eye (2 ^ nb_qubits qcircuit)) /\
     has_shape (2 ^ nb_qubits qcircuit) (2 ^ nb_qubits qcircuit)
               (np_eye (2 ^ nb_qubits qcircuit))).
Proof.
  split.
  - intros n before after label qubits. unfold compute_expected_matrix.
    rewrite !gates_of_app.
    change (INonGate label qubits :: after)
      with ([INonGate label qubits] ++ after).
    rewrite gates_of_app. reflexivity.
  - intros H0 H1 qcircuit Hnone. split; [|apply np_eye_shape].
    unfold compute_expected_matrix.
    rewrite (gates_of_no_gate _ Hnone). simpl.
    now rewrite vectorize_N_eye.
Qed.

(** *** Further facts on compute_expected_matrix *)

(** What the loop has checked of a gate when it goes past it. *)
Definition accepted (n : nat) (gate : Gate) : Prop :=
  isinstance_SingleQubitGate gate = true /\
  exists index, hd_error (targets gate) = Some index /\ index < n.

Lemma multiply_gates_returns (n : nat) (gates : list Gate) :
  forall result_matrix m,
    multiply_gates n gates result_matrix = Ok m ->
    Forall (accepted n) gates /\ List.length m = List.length result_matrix.
Proof.
  induction gates as [|gate rest IH]; intros acc m H.
  - simpl in H. inversion H. split; [constructor | reflexivity].
  - simpl in H.
    destruct (isinstance_SingleQubitGate gate) eqn:Hs; [|discriminate].
    cbn [negb] in H.
    destruct (targets gate) as [|index tl] eqn:Et; [discriminate|].
    destruct (Nat.leb_spec n index) as [|Hlt]; [discriminate|].
    unfold np_dot in H.
    destruct (nb_cols acc =? nb_rows (expand n gate index))%nat; [|discriminate].
    destruct (IH _ _ H) as [Hrest Hlen]. split.
    + constructor; [|exact Hrest]. split; [exact Hs|].
      exists index. rewrite Et. split; [reflexivity | exact Hlt].
    + rewrite Hlen. unfold matmul. apply length_map.
Qed.

(** Whatever the circuit, well formed or not: when
    [compute_expected_matrix] returns a matrix, every gate is a single-qubit
    gate whose first target is a qubit of the circuit, and the matrix has
    [2^n] rows. *)
Theorem compute_expected_matrix_returns (qcircuit : QCircuit) (m : matrix) :
  compute_expected_matrix qcircuit = Ok m ->
  Forall (accepted (nb_qubits qcircuit)) (gates_of qcircuit) /\
  List.length m = 2 ^ nb_qubits qcircuit.
Proof.
  unfold compute_expected_matrix. intro H.
  destruct (multiply_gates (nb_qubits qcircuit) (rev (gates_of qcircuit))
              (np_eye (2 ^ nb_qubits qcircuit))) as [r|e] eqn:E; [|discriminate].
  inversion H; subst m.
  destruct (multiply_gates_returns _ _ _ E) as [Hacc Hlen]. split.
  - rewrite <- (rev_involutive (gates_of qcircuit)). now apply Forall_rev.
  - unfold vectorize_N. rewrite length_map, Hlen.
    apply (proj1 (np_eye_shape _)).
Qed.

Lemma vectorize_N_shape (r c : nat) (m : matrix) :
  has_shape r c m -> has_shape r c (vectorize_N m).
Proof.
  intros [Hr Hc]. unfold has_shape, vectorize_N. split.
  - now rewrite length_map.
  - rewrite Forall_forall in *. intros row Hrow.
    apply in_map_iff in Hrow. destruct Hrow as (row0 & <- & Hin).
    rewrite length_map. now apply Hc.
Qed.

Lemma gates_of_map_IGate (n : nat) (gates : list Gate) :
  gates_of (MkQCircuit n (map IGate gates)) = gates.
Proof.
  unfold gates_of; simpl. induction gates as [|g l IH]; [reflexivity|].
  simpl. now rewrite IH.
Qed.

End ExpectedMatrix.

(** Integer matrices of [X] and [Z], to run the model on concrete
    circuits; every other gate is given the identity. *)
Definition pauli_matrix (gate : Gate) : list (list Z) :=
  match gate_class gate with
  | native_gates.X => [[0; 1]; [1; 0]]%Z
  | native_gates.Z => [[1; 0]; [0; -1]]%Z
  | _ => [[1; 0]; [0; 1]]%Z
  end.

(** [X] on qubit 0, a measure, [Z] on qubit 1. *)
Definition x_measure_z : QCircuit :=
  MkQCircuit 2
    [IGate (MkGate native_gates.X [] [] [0]);
     INonGate "measure" [0];
     IGate (MkGate native_gates.Z [] [] [1])].

(** [H] on qubit 0, then [CNOT] from 0 to 1. *)
Definition bell : QCircuit :=
  MkQCircuit 2
    [IGate (MkGate native_gates.H [] [] [0]);
     IGate (MkGate native_gates.CNOT [] [0] [1])].

(** numpy's own example of [np.kron], and a product of two matrices. *)
Example np_kron_example :
  np_kron Z.mul [[1; 2]; [3; 4]]%Z [[0; 5]; [6; 7]]%Z
    = [[0; 5; 0; 10]; [6; 7; 12; 14]; [0; 15; 0; 20]; [18; 21; 24; 28]]%Z.
Proof. reflexivity. Qed.

Example np_dot_example :
  np_dot 0%Z Z.add Z.mul [[1; 2]; [3; 4]]%Z [[0; 1]; [1; 0]]%Z
    = Ok [[2; 1]; [4; 3]]%Z /\
  np_dot 0%Z Z.add Z.mul [[1; 2]; [3; 4]]%Z [[0; 1]]%Z = Raise ValueError.
Proof. split; reflexivity. Qed.

(** [X] then [Z] on the one qubit of a circuit: the result is [Z X], the
    later gate on the left. *)
Example compute_expected_matrix_order :
  compute_expected_matrix 0%Z 1%Z Z.add Z.mul (fun c => c) pauli_matrix
    (MkQCircuit 1 [IGate (MkGate native_gates.X [] [] [0]);
                   IGate (MkGate native_gates.Z [] [] [0])])
    = Ok [[0; 1]; [-1; 0]]%Z.
Proof. reflexivity. Qed.

Lemma x_measure_z_well_formed : well_formed pauli_matrix x_measure_z.
Proof.
  unfold well_formed, placed_on, has_shape; simpl.
  repeat constructor; try (eexists; split; [reflexivity | lia]).
Qed.

(** An instance of C2: the circuit [x_measure_z] gives [(I (x) Z) (X (x) I)],
    the matrix of [X] on qubit 0 followed by [Z] on qubit 1. *)
Lemma compute_expected_matrix_single_qubit_gates_witness :
  compute_expected_matrix 0%Z 1%Z Z.add Z.mul (fun c => c) pauli_matrix x_measure_z
    = Ok [[0; 0; 1; 0]; [0; 0; 0; -1]; [1; 0; 0; 0]; [0; -1; 0; 0]]%Z /\
  has_shape 4 4 [[0; 0; 1; 0]; [0; 0; 0; -1]; [1; 0; 0; 0]; [0; -1; 0; 0]]%Z.
Proof.
  apply (@compute_expected_matrix_single_qubit_gates
           Z 0%Z 1%Z Z.add Z.mul (fun c => c) pauli_matrix x_measure_z).
  - reflexivity.
  - exact x_measure_z_well_formed.
  - simpl. repeat constructor.
Defined.

(** An instance of C4: the [CNOT] of [bell] is refused. *)
Lemma compute_expected_matrix_raises_iff_unsupported_witness :
  compute_expected_matrix 0%Z 1%Z Z.add Z.mul (fun c => c) pauli_matrix bell
    = Raise ValueError.
Proof.
  apply (@compute_expected_matrix_raises_iff_unsupported
           Z 0%Z 1%Z Z.add Z.mul (fun c => c) pauli_matrix bell).
  - unfold well_formed, placed_on, has_shape; simpl.
    repeat constructor; try discriminate;
      try (eexists; split; [reflexivity | lia]).
  - simpl. apply Exists_cons_tl. apply Exists_cons_hd. reflexivity.
Defined.

(** An instance of C10: a circuit of one qubit that only measures. *)
Lemma compute_expected_matrix_ignores_non_gates_witness :
  compute_expected_matrix 0%Z 1%Z Z.add Z.mul (fun c => c) pauli_matrix
    (MkQCircuit 1 [INonGate "measure" [0]])
    = Ok [[1; 0]; [0; 1]]%Z /\
  has_shape 2 2 [[1; 0]; [0; 1]]%Z.
Proof.
  apply (proj2 (@compute_expected_matrix_ignores_non_gates
                  Z 0%Z 1%Z Z.add Z.mul (fun c => c) pauli_matrix)
               eq_refl eq_refl (MkQCircuit 1 [INonGate "measure" [0]])).
  simpl. repeat constructor.
Defined.

(** *** replace_custom_gate *)

(** A qiskit [CircuitInstruction]: its operation, an object named by its
    address, and the qubits it acts on, named by their index in the circuit
    the instruction was taken from.  An instruction appended to a circuit
    shares its operation with the circuit. *)
Record CircuitInstruction : Type := MkInstruction {
  operation : nat;
  qubits : list nat
}.

(** A qiskit [QuantumCircuit]. *)
Record QuantumCircuit : Type := MkQuantumCircuit {
  num_qubits : nat;
  data : list CircuitInstruction
}.

Fixpoint has_duplicates (l : list nat) : bool :=
  match l with
  | [] => false
  | q :: rest => existsb (Nat.eqb q) rest || has_duplicates rest
  end.

(** [circuit.append(instruction)]: qiskit checks that every qubit of the
    instruction is a qubit of the circuit, then that no qubit is given
    twice, and raises [CircuitError] otherwise; the circuit then holds the
    instruction. *)
Definition append (circuit : QuantumCircuit) (instruction : CircuitInstruction)
  : result QuantumCircuit :=
  if negb (forallb (fun q => (q <? num_qubits circuit)%nat) (qubits instruction))
  then Raise (CircuitError "Bit is not in the circuit.")
  else if has_duplicates (qubits instruction)
  then Raise (CircuitError "duplicate qubit arguments")
  else Ok (MkQuantumCircuit (num_qubits circuit)
                            (data circuit ++ [instruction])).

(** The instruction can be appended to a circuit of [nb_qubits] qubits. *)
Definition fits (nb_qubits : nat) (instruction : CircuitInstruction) : bool :=
  forallb (fun q => (q <? nb_qubits)%nat) (qubits instruction)
  && negb (has_duplicates (qubits instruction)).

(** [str(e)] when [isinstance(e, QiskitError)]; [CircuitError] is a
    subclass of [QiskitError]. *)
Definition qiskit_error_message (e : exn) : option string :=
  match e with
  | QiskitError message => Some message
  | CircuitError message => Some message
  | _ => None
  end.

(** [isinstance(e, QiskitError) and "TwoQubitWeylDecomposition" in str(e)]. *)
Definition is_weyl_singularity (e : exn) : bool :=
  match qiskit_error_message e with
  | Some message => contains "TwoQubitWeylDecomposition" message
  | None => false
  end.

Section ReplaceCustomGate.

(** The operand of a unitary gate, what [transpile] returns, and the type
    of a global phase. *)
Variable Operand : Type.
Variable Transpiled : Type.
Variable Phase : Type.

(** [transpiled.global_phase] and [mpqp.tools.maths.closest_unitary]. *)
Variable global_phase : Transpiled -> Phase.
Variable closest_unitary : Operand -> Operand.

(** The store of operation objects: [operation.params] by address. *)
Definition heap : Type := nat -> list Operand.

(** What a circuit holds, read through the store: its width and, for each
    instruction, the parameters of the operation and the qubits. *)
Definition contents : Type := (nat * list (list Operand * list nat))%type.

Definition read (h : heap) (circuit : QuantumCircuit) : contents :=
  (num_qubits circuit,
   map (fun instruction => (h (operation instruction), qubits instruction))
       (data circuit)).

(** [transpile(circuit, basis_gates=['u', 'cx'])]; the outcome may depend
    on how many calls were made before. *)
Variable transpile : nat -> contents -> result Transpiled.

(** The store and the log of the calls to [transpile]. *)
Record world : Type := MkWorld {
  objects : heap;
  calls : list contents
}.

Definition call_transpile (circuit : QuantumCircuit) (w : world)
  : result Transpiled * world :=
  let seen := read (objects w) circuit in
  (transpile (List.length (calls w)) seen,
   MkWorld (objects w) (calls w ++ [seen])).

(** [operation.params[0] = value]. *)
Definition set_first_param (h : heap) (address : nat) (value : Operand) : heap :=
  fun a =>
    if (a =? address)%nat then
      match h a with
      | [] => []
      | _ :: rest => value :: rest
      end
    else h a.

(** circuit.py, lines 198-236.  The [append] of line 223 is outside the
    [try]: its [CircuitError] leaves the function before any call to
    [transpile]. *)
Definition replace_custom_gate (custom_unitary : CircuitInstruction)
    (nb_qubits : nat) (w : world) : result (Transpiled * Phase) * world :=
  match append (MkQuantumCircuit nb_qubits []) custom_unitary with
  | Raise e => (Raise e, w)
  | Ok transpilation_circuit =>
      match call_transpile transpilation_circuit w with
      | (Ok transpiled, w1) => (Ok (transpiled, global_phase transpiled), w1)
      | (Raise e, w1) =>
          match qiskit_error_message e with
          | Some message =>
              if contains "TwoQubitWeylDecomposition" message then
                match objects w1 (operation custom_unitary) with
                | [] => (Raise IndexError, w1)
                | operand :: _ =>
                    let w2 :=
                      MkWorld (set_first_param (objects w1)
                                 (operation custom_unitary)
                                 (closest_unitary operand))
                              (calls w1) in
                    match call_transpile transpilation_circuit w2 with
                    | (Ok transpiled, w3) =>
                        (Ok (transpiled, global_phase transpiled), w3)
                    | (Raise e', w3) => (Raise e', w3)
                    end
                end
              else (Raise e, w1)
          | None => (Raise e, w1)
          end
      end
  end.

(** [(transpiled, transpiled.global_phase)], or the exception. *)
Definition with_phase (r : result Transpiled) : result (Transpiled * Phase) :=
  match r with
  | Ok transpiled => Ok (transpiled, global_phase transpiled)
  | Raise e => Raise e
  end.

Lemma append_fits (nb_qubits : nat) (instruction : CircuitInstruction) :
  fits nb_qubits instruction = true ->
  append (MkQuantumCircuit nb_qubits []) instruction
  = Ok (MkQuantumCircuit nb_qubits [instruction]).
Proof.
  unfold fits, append; cbn [num_qubits data]. intro H.
  apply andb_true_iff in H. destruct H as [Hin Hdup].
  rewrite Hin. apply negb_true_iff in Hdup. rewrite Hdup. reflexivity.
Qed.


(** C5.  For a unitary instruction that the circuit of [nb_qubits] qubits
    accepts, with operand [operand]: when the first transpilation succeeds
    its circuit is returned with its global phase; when it raises a
    [QiskitError] that names [TwoQubitWeylDecomposition], the operand is
    replaced by [closest_unitary operand] and [transpile] is called one more
    time, on the circuit with the new operand, and the outcome of that call
    is the outcome; any other exception is raised as it is, without a second
    call. *)
Theorem replace_custom_gate_retries_once :
  forall (custom_unitary : CircuitInstruction) (nb_qubits : nat) (w : world)
         (operand : Operand) (rest : list Operand),
    fits nb_qubits custom_unitary = true ->
    objects w (operation custom_unitary) = operand :: rest ->
    let first := (nb_qubits, [(operand :: rest, qubits custom_unitary)]) in
    let second :=
      (nb_qubits, [(closest_unitary operand :: rest, qubits custom_unitary)]) in
    let repaired :=
      set_first_param (objects w) (operation custom_unitary)
                      (closest_unitary operand) in
    let k := List.length (calls w) in
    replace_custom_gate custom_unitary nb_qubits w =
      match transpile k first with
      | Ok transpiled =>
          (Ok (transpiled, global_phase transpiled),
           MkWorld (objects w) (calls w ++ [first]))
      | Raise e =>
          if is_weyl_singularity e then
            (with_phase (transpile (S k) second),
             MkWorld repaired (calls w ++ [first; second]))
          else (Raise e, MkWorld (objects w) (calls w ++ [first]))
      end.
Proof.
  intros cu n w operand rest Hfits Hop first second repaired k.
  unfold replace_custom_gate. rewrite (append_fits _ _ Hfits).
  unfold call_transpile, read; simpl.
  rewrite Hop. fold first. fold k.
  destruct (transpile k first) as [t | e]; [reflexivity|].
  unfold is_weyl_singularity.
  destruct (qiskit_error_message e) as [message|]; [|reflexivity].
  destruct (contains "TwoQubitWeylDecomposition" message); [|reflexivity].
  assert (Hnew : set_first_param (objects w) (operation cu)
                   (closest_unitary operand) (operation cu)
                 = closest_unitary operand :: rest).
  { unfold set_first_param. now rewrite Nat.eqb_refl, Hop. }
  rewrite Hnew. fold second. fold repaired.
  rewrite length_app, <- app_assoc. simpl. fold k.
  replace (k + 1) with (S k) by lia.
  destruct (transpile (S k) second); reflexivity.
Qed.

(** *** Further facts on replace_custom_gate *)


Lemma set_first_param_frame (h : heap) (address : nat) (value : Operand)
    (a : nat) :
  tl (set_first_param h address value a) = tl (h a) /\
  List.length (set_first_param h address value a) = List.length (h a) /\
  (a <> address -> set_first_param h address value a = h a).
Proof.
  unfold set_first_param. destruct (Nat.eqb_spec a address) as [-> | Hne].
  - destruct (h address); repeat split; try reflexivity; intro H; now destruct H.
  - repeat split; reflexivity.
Qed.

(** The only thing [replace_custom_gate] may change in the store is the
    first parameter of the operation it was given: the other parameters of
    that operation and the other operations are as they were. *)
Theorem replace_custom_gate_frame (custom_unitary : CircuitInstruction)
    (nb_qubits : nat) (w : world) (a : nat) :
  let after := objects (snd (replace_custom_gate custom_unitary nb_qubits w)) in
  tl (after a) = tl (objects w a) /\
  List.length (after a) = List.length (objects w a) /\
  (a <> operation custom_unitary -> after a = objects w a).
Proof.
  unfold replace_custom_gate.
  destruct (append _ _) as [transpilation_circuit | e0];
    [|repeat split; reflexivity].
  unfold call_transpile.
  destruct (transpile _ _) as [t | e]; cbn [snd calls objects].
  - repeat split; reflexivity.
  - destruct (qiskit_error_message e) as [message|];
      [|repeat split; reflexivity].
    destruct (contains _ _); [|repeat split; reflexivity].
    destruct (objects w (operation custom_unitary)) as [|operand rest].
    + repeat split; reflexivity.
    + cbn [calls objects].
      destruct (transpile _ _); cbn [snd objects]; apply set_first_param_frame.
Qed.

(** An operation without parameter on the singular case, in an instruction
    that the circuit accepts: reading [params[0]] raises [IndexError], after
    the one call to [transpile] and without any change to the store. *)
Theorem replace_custom_gate_no_operand (custom_unitary : CircuitInstruction)
    (nb_qubits : nat) (w : world) (e : exn) :
  fits nb_qubits custom_unitary = true ->
  objects w (operation custom_unitary) = [] ->
  transpile (List.length (calls w)) (nb_qubits, [([], qubits custom_unitary)])
    = Raise e ->
  is_weyl_singularity e = true ->
  replace_custom_gate custom_unitary nb_qubits w
    = (Raise IndexError,
       MkWorld (objects w)
               (calls w ++ [(nb_qubits, [([], qubits custom_unitary)])])).
Proof.
  intros Hfits Hop Hfirst Hweyl.
  unfold replace_custom_gate. rewrite (append_fits _ _ Hfits).
  unfold call_transpile, read; cbn [num_qubits data map].
  rewrite Hop, Hfirst. unfold is_weyl_singularity in Hweyl.
  destruct (qiskit_error_message e) as [message|]; [|discriminate Hweyl].
  rewrite Hweyl. cbn [objects]. rewrite Hop. reflexivity.
Qed.

End ReplaceCustomGate.

(** A transpiler that fails once on the singular case and then succeeds,
    on integer operands: it returns the operand it was given. *)
Definition flaky_transpile (k : nat) (seen : contents Z) : result Z :=
  match k with
  | O => Raise (QiskitError "TwoQubitWeylDecomposition: failed to diagonalize M2")
  | S _ =>
      match snd seen with
      | (operand :: _, _) :: _ => Ok operand
      | _ => Raise (QiskitError "empty circuit")
      end
  end.

(** An instance of C5: the operand 7 at address 0 is replaced by 8 and the
    second call succeeds. *)
Lemma replace_custom_gate_retries_once_witness :
  replace_custom_gate (fun t : Z => t) Z.succ flaky_transpile
    (MkInstruction 0 [0; 1]) 2 (MkWorld (fun _ => [7%Z]) [])
  = (Ok (8%Z, 8%Z),
     MkWorld (set_first_param (fun _ => [7%Z]) 0 8%Z)
             [(2, [([7%Z], [0; 1])]); (2, [([8%Z], [0; 1])])]).
Proof.
  apply (@replace_custom_gate_retries_once Z Z Z (fun t : Z => t) Z.succ
           flaky_transpile (MkInstruction 0 [0; 1]) 2
           (MkWorld (fun _ => [7%Z]) []) 7%Z []);
    reflexivity.
Defined.

(** An instruction on a qubit that the circuit does not have, and an
    instruction that names a qubit twice: [append] fails, and [transpile]
    is not called. *)
Example replace_custom_gate_append_fails :
  replace_custom_gate (fun t : Z => t) Z.succ flaky_transpile
    (MkInstruction 0 [0; 2]) 2 (MkWorld (fun _ => [7%Z]) [])
  = (Raise (CircuitError "Bit is not in the circuit."),
     MkWorld (fun _ => [7%Z]) []) /\
  replace_custom_gate (fun t : Z => t) Z.succ flaky_transpile
    (MkInstruction 0 [1; 1]) 2 (MkWorld (fun _ => [7%Z]) [])
  = (Raise (CircuitError "duplicate qubit arguments"),
     MkWorld (fun _ => [7%Z]) []).
Proof. split; reflexivity. Qed.

(** Instances of the further facts. *)
Lemma compute_expected_matrix_returns_witness :
  Forall (accepted 2) (gates_of x_measure_z) /\
  List.length [[0; 0; 1; 0]; [0; 0; 0; -1]; [1; 0; 0; 0]; [0; -1; 0; 0]]%Z = 2 ^ 2.
Proof.
  apply (@compute_expected_matrix_returns Z 0%Z 1%Z Z.add Z.mul (fun c => c)
           pauli_matrix x_measure_z).
  reflexivity.
Defined.

Lemma replace_custom_gate_no_operand_witness :
  replace_custom_gate (fun t : Z => t) Z.succ flaky_transpile
    (MkInstruction 0 [0; 1]) 2 (MkWorld (fun _ => []) [])
  = (Raise IndexError, MkWorld (fun _ => []) [(2, [([], [0; 1])])]).
Proof.
  apply (@replace_custom_gate_no_operand Z Z Z (fun t : Z => t) Z.succ
           flaky_transpile (MkInstruction 0 [0; 1]) 2 (MkWorld (fun _ => []) [])
           (QiskitError "TwoQubitWeylDecomposition: failed to diagonalize M2"));
    reflexivity.
Defined.

(** *** random_circuit, then compute_expected_matrix *)

Section RandomThenExpected.

Variable default_rng : option Z -> Generator.
Variable C : Type.
Variables zero one : C.
Variables cadd cmul : C -> C -> C.
Variable N : C -> C.
Variable to_matrix : Gate -> list (list C).

Lemma single_qubit_class (gate : NativeGate) :
  issubclass_SingleQubitGate gate = true ->
  arity gate = 1 /\ is_SWAP gate = false.
Proof. destruct gate; simpl; intro H; try discriminate H; auto. Qed.

(** A circuit drawn from single-qubit classes is one that
    [compute_expected_matrix] accepts: when the classes are gates without
    parameter, [U] or [Rk], the circuit has at least one qubit and the gates
    have 2 x 2 matrices, the random circuit is returned and its expected
    matrix is computed, with [2^n] rows of [2^n] entries. *)
Theorem random_circuit_accepted (gate_classes : list NativeGate) (n : nat)
    (nb_gates : option nat) (seed : option Seed) :
  gate_classes <> [] ->
  1 <= n ->
  Forall (fun gate => issubclass_SingleQubitGate gate = true) gate_classes ->
  Forall (fun gate => supported gate = true) gate_classes ->
  (forall gate, isinstance_SingleQubitGate gate = true ->
                has_shape 2 2 (to_matrix gate)) ->
  exists qc m,
    fst (random_circuit default_rng (Some gate_classes) n nb_gates seed) = Ok qc /\
    compute_expected_matrix zero one cadd cmul N to_matrix qc = Ok m /\
    has_shape (2 ^ n) (2 ^ n) m.
Proof.
  intros Hne Hn Hsingle Hsup Hmat.
  assert (Hfit : Forall (fun gate => arity gate <= n) gate_classes).
  { rewrite Forall_forall in *. intros g Hg.
    destruct (single_qubit_class g (Hsingle g Hg)) as [-> _]. exact Hn. }
  destruct (@random_circuit_sound default_rng gate_classes n nb_gates seed
              Hne Hfit Hsup) as (gates & E & _ & Hw & Ht).
  assert (Hs : Forall (fun g => isinstance_SingleQubitGate g = true) gates).
  { rewrite Forall_forall in *. intros g Hg.
    destruct (Ht g Hg) as (Hin & _). unfold isinstance_SingleQubitGate. auto. }
  assert (Hp : Forall (placed_on to_matrix n) gates).
  { rewrite Forall_forall in *. intros g Hg.
    destruct (Ht g Hg) as (Hin & (Hlen & _) & _).
    destruct (Hw g Hg) as (Hrange & _).
    destruct (single_qubit_class _ (Hsingle _ Hin)) as [_ Hswap].
    rewrite Hswap in Hlen. split; [|apply Hmat; exact (Hs g Hg)].
    destruct (targets g) as [|t [|t' tl]] eqn:Et; try discriminate Hlen.
    exists t. split; [reflexivity|].
    rewrite Forall_forall in Hrange. apply Hrange.
    apply in_or_app. right. now left. }
  exists (MkQCircuit n (map IGate gates)).
  unfold compute_expected_matrix. rewrite gates_of_map_IGate. cbn [nb_qubits].
  destruct (@multiply_gates_single C zero one cadd cmul to_matrix n (rev gates)
              (Forall_rev Hs) (Forall_rev Hp)
              (np_eye zero one (2 ^ n)) (np_eye_shape zero one (2 ^ n)))
    as [Em Hshape].
  rewrite Em. eexists. split; [exact E|]. split; [reflexivity|].
  apply vectorize_N_shape. exact Hshape.
Qed.

End RandomThenExpected.

Lemma random_circuit_accepted_witness :
  exists qc m,
    fst (random_circuit counting_rng
           (Some [native_gates.H; native_gates.U; native_gates.Rk]) 2 (Some 3) None)
      = Ok qc /\
    compute_expected_matrix 0%Z 1%Z Z.add Z.mul (fun c => c) pauli_matrix qc = Ok m /\
    has_shape (2 ^ 2) (2 ^ 2) m.
Proof.
  apply (@random_circuit_accepted counting_rng Z 0%Z 1%Z Z.add Z.mul (fun c => c)
           pauli_matrix [native_gates.H; native_gates.U; native_gates.Rk]
           2 (Some 3) None).
  - discriminate.
  - lia.
  - repeat (constructor; [reflexivity|]); constructor.
  - repeat (constructor; [reflexivity|]); constructor.
  - intros gate _. unfold pauli_matrix, has_shape.
    destruct (gate_class gate); simpl; repeat constructor.
Defined.

End Circuit.
